(** * Shopee product authenticity checker ([app.py]): model and properties

    A shallow embedding of [app.py].  The three functions of the module are
    embedded under their own names:

    - [load_reference_images]   (lines 22-33)
    - [compare_with_reference]  (lines 35-88)
    - [scrape_shopee_reviews]   (lines 90-181)

    Python [str] values are modelled by [string]: a sequence of characters
    whose code points lie below 256.  Everything outside the process (the
    reference directory, the HTTP session, the vision service) is an
    explicit environment that is threaded through the calls together with a
    trace of the external calls made so far.

    Left out: what is printed, the request headers, the rendering of the
    confidence as a percentage in the CSV file, and errors of the operating
    system while the reference directory is read or the CSV file is
    written.  [response.json()] on a body that is not JSON is taken to
    raise a [requests.RequestException], as [requests] does since 2.27. *)

From Stdlib Require Import ZArith QArith List Ascii String Bool Lia.
From stdpp Require Import gmap strings list fin_maps pretty.

Open Scope string_scope.
Open Scope list_scope.

(** ** Python strings *)

Module PyStr.

Definition chars (s : string) : list ascii := list_ascii_of_string s.
Definition str (l : list ascii) : string := string_of_list_ascii l.

Definition code (c : ascii) : N := N_of_ascii c.

(** [str.isspace] on one character, for code points below 256:
    TAB..CR, FS..US, SPACE, NEL and NBSP. *)
Definition isspace (c : ascii) : bool :=
  let n := code c in
  ((9 <=? n) && (n <=? 13) || (28 <=? n) && (n <=? 32)
   || (n =? 133) || (n =? 160))%N.

(** [\d] of a [str] pattern: the decimal digits; below 256 these are
    [0]..[9]. *)
Definition isdigit (c : ascii) : bool :=
  let n := code c in ((48 <=? n) && (n <=? 57))%N.

Fixpoint lstrip_chars (l : list ascii) : list ascii :=
  match l with
  | c :: l' => if isspace c then lstrip_chars l' else l
  | [] => []
  end.

(** [s.strip()] *)
Definition strip (s : string) : string :=
  str (rev (lstrip_chars (rev (lstrip_chars (chars s))))).

(** [str.lower] on one character: A-Z, and the upper-case letters of the
    Latin-1 supplement (all of 0xC0-0xDE but the multiplication sign). *)
Definition lower_char (c : ascii) : ascii :=
  let n := code c in
  if ((65 <=? n) && (n <=? 90)
      || (192 <=? n) && (n <=? 222) && negb (n =? 215))%N
  then ascii_of_N (n + 32) else c.

(** [s.lower()] *)
Definition lower (s : string) : string := str (map lower_char (chars s)).

Fixpoint starts_with (p l : list ascii) : bool :=
  match p, l with
  | [], _ => true
  | a :: p', b :: l' => if Ascii.eqb a b then starts_with p' l' else false
  | _ :: _, [] => false
  end.

(** [s.startswith(p)] and [s.endswith(p)] *)
Definition startswith (s p : string) : bool := starts_with (chars p) (chars s).
Definition endswith (s p : string) : bool :=
  starts_with (rev (chars p)) (rev (chars s)).

(** [s.endswith((p1, p2, ...))] *)
Definition endswith_any (s : string) (ps : list string) : bool :=
  existsb (endswith s) ps.

(** [not s] *)
Definition falsy (s : string) : bool := String.eqb s "".

End PyStr.

(** ** The reference directory *)

(** What [os.listdir] and [os.path.isdir] answer.  [os.listdir] gives the
    names in the directory's own order.  Both calls are taken to answer: an
    [os.listdir] that raises [OSError] (a directory removed or unreadable),
    which no handler of the module catches, is outside the model. *)
Record FileSystem := {
  os_listdir : string -> list string;
  os_path_isdir : string -> bool
}.

Definition REFERENCE_IMAGES_DIR : string := "reference_images".

(** [os.path.join(a, b)] for a relative [b], as [os.listdir] yields. *)
Definition os_path_join (a b : string) : string := a +:+ "/" +:+ b.

Definition IMAGE_EXTENSIONS : list string := [".png"; ".jpg"; ".jpeg"].

Definition is_image_file (img_file : string) : bool :=
  PyStr.endswith_any (PyStr.lower img_file) IMAGE_EXTENSIONS.

(** The inner loop of [load_reference_images]: the list built for one
    category by successive [append]s. *)
Definition category_images (fs : FileSystem) (category_path : string)
  : list string :=
  foldl (fun images img_file =>
           if is_image_file img_file
           then images ++ [os_path_join category_path img_file]
           else images)
        [] (os_listdir fs category_path).

Definition load_reference_images (fs : FileSystem)
  : gmap string (list string) :=
  foldl (fun reference_data category =>
           let category_path := os_path_join REFERENCE_IMAGES_DIR category in
           if os_path_isdir fs category_path
           then <[category := category_images fs category_path]> reference_data
           else reference_data)
        ∅ (os_listdir fs REFERENCE_IMAGES_DIR).

(** ** Regular expressions

    The fragment of [re] that the URL pattern is written in: single
    characters, [\d], the greedy [+] on a single character, capturing groups
    and concatenation, matched by backtracking as [re] does. *)

Module Re.

Inductive atom :=
| Lit (c : ascii)          (* a literal character; an escaped dot is one *)
| Digit.                   (* \d *)

Inductive regex :=
| One (a : atom)
| Plus (a : atom)          (* a+ , greedy *)
| Group (r : regex)        (* ( r ) *)
| Seq (r1 r2 : regex).

Definition atom_matches (a : atom) (c : ascii) : bool :=
  match a with
  | Lit x => Ascii.eqb x c
  | Digit => PyStr.isdigit c
  end.

Definition orelse {A} (x y : option A) : option A :=
  match x with Some _ => x | None => y end.

(** [a+] followed by [k]: one [a], then as many more as possible, giving
    characters back one at a time while [k] fails. *)
Fixpoint match_plus {A} (a : atom) (s : list ascii)
    (k : list ascii -> option A) : option A :=
  match s with
  | c :: s' =>
      if atom_matches a c then orelse (match_plus a s' k) (k s') else None
  | [] => None
  end.

(** [r] at the start of [s], then [k] on the rest.  [groups] are the texts
    of the groups closed so far, in order (the groups of the patterns used
    here are not nested, so this is also their numbering). *)
Fixpoint match_here {A} (r : regex) (s : list ascii) (groups : list string)
    (k : list ascii -> list string -> option A) : option A :=
  match r with
  | One a =>
      match s with
      | c :: s' => if atom_matches a c then k s' groups else None
      | [] => None
      end
  | Plus a => match_plus a s (fun s' => k s' groups)
  | Group r' =>
      match_here r' s groups
        (fun s' groups' =>
           k s' (groups' ++ [PyStr.str (take (length s - length s') s)]))
  | Seq r1 r2 =>
      match_here r1 s groups (fun s' groups' => match_here r2 s' groups' k)
  end.

Fixpoint search_chars (r : regex) (s : list ascii) : option (list string) :=
  match match_here r s [] (fun _ groups => Some groups) with
  | Some groups => Some groups
  | None =>
      match s with
      | [] => None
      | _ :: s' => search_chars r s'
      end
  end.

(** [re.search(r, s)]: [None], or [match.groups()] of the first match,
    trying the start positions from left to right. *)
Definition search (r : regex) (s : string) : option (list string) :=
  search_chars r (PyStr.chars s).

End Re.

(** [r'i\.(\d+)\.(\d+)'] *)
Definition URL_PATTERN : Re.regex :=
  Re.Seq (Re.One (Re.Lit "i"))
    (Re.Seq (Re.One (Re.Lit "."))
       (Re.Seq (Re.Group (Re.Plus Re.Digit))
          (Re.Seq (Re.One (Re.Lit "."))
             (Re.Group (Re.Plus Re.Digit))))).

(** ** JSON values as Python objects *)

#[local] Set Warnings "-register-all".

Inductive Json :=
| JNull
| JBool (b : bool)
| JNumber (q : Q)
| JString (s : string)
| JList (items : list Json)
| JDict (items : list (string * Json)).   (* keys are distinct *)

Fixpoint dict_lookup (key : string) (items : list (string * Json))
  : option Json :=
  match items with
  | [] => None
  | (k, v) :: items' => if String.eqb k key then Some v else dict_lookup key items'
  end.

(** The exceptions that the embedded statements raise by themselves; those
    of the operating system ([OSError]) are outside the model. *)
Inductive PyException :=
| AttributeError | TypeError | ValueError | IndexError.

(** [d.get(key, default)].  Only a dict has [get]: on any other value the
    attribute lookup raises [AttributeError]. *)
Definition py_get (d : Json) (key : string) (default : Json)
  : PyException + Json :=
  match d with
  | JDict items =>
      inr (match dict_lookup key items with Some v => v | None => default end)
  | _ => inl AttributeError
  end.

(** Truth value of an object ([not x] is its negation). *)
Definition py_truthy (x : Json) : bool :=
  match x with
  | JNull => false
  | JBool b => b
  | JNumber q => negb (Qeq_bool q 0)
  | JString s => negb (PyStr.falsy s)
  | JList items => match items with [] => false | _ => true end
  | JDict items => match items with [] => false | _ => true end
  end.

(** What [for x in v] iterates over: the items of a list, the characters of
    a string, the keys of a dict; anything else raises [TypeError]. *)
Definition py_iter (v : Json) : PyException + list Json :=
  match v with
  | JList items => inr items
  | JString s =>
      inr (map (fun c => JString (String c EmptyString)) (PyStr.chars s))
  | JDict items => inr (map (fun kv => JString (fst kv)) items)
  | _ => inl TypeError
  end.

(** ** The outside world *)

(** What [session.get(url, ...)] does, and what reading the response gives. *)
Inductive HttpOutcome :=
| Response (status_code : Z) (json : string + Json)
    (* a response; [json] is what [response.json()] gives: the decoded
       body, or, for a body that is not JSON, the text of the
       [requests.JSONDecodeError] (a [RequestException]) it raises *)
| RaisesTimeout                                (* requests.Timeout *)
| RaisesRequestException (detail : string).    (* any other RequestException *)

(** What [client.chat.completions.create(...)] followed by
    [response.choices[0].message.content] does. *)
Inductive VisionOutcome :=
| Completion (content : option string)   (* the content, which may be None *)
| RaisesException.                       (* some Exception is raised *)

(** The environment of a run.  [World] is the state of everything outside
    the process; a call to the outside answers and moves it on. *)
Record Env (World : Type) := {
  env_fs : World -> FileSystem;
  env_get : World -> string -> option Z -> HttpOutcome * World;
  env_vision : World -> string -> string -> VisionOutcome * World;
  (** the text an f-string gives for a JSON value that is not a string *)
  env_format : Json -> string
}.
Arguments env_fs {World}.
Arguments env_get {World}.
Arguments env_vision {World}.
Arguments env_format {World}.

Record ResultRow := {
  image_url : string;
  classification : string;
  confidence : Q
}.

(** The calls made to the outside, as they happen. *)
Inductive Event :=
| EvScan (reference_data : gmap string (list string))
    (* one walk of the reference directory, and the mapping it gave *)
| EvGet (url : string) (timeout : option Z)
| EvVision (reference_image candidate_image : string)
| EvCsv (rows : list ResultRow).
    (* authenticity_check.csv rewritten: the header and one line for each
       of these rows *)

(** What a call of [scrape_shopee_reviews] gives back. *)
Inductive Message :=
| Text (s : string)
| Summary (total_images pass_count counterfeit : nat).
    (* the summary f-string with the three numbers it interpolates *)

Inductive Result :=
| Returns (message : Message) (sample : option string)
| Raises (e : PyException).

Definition CDN_PREFIX : string := "https://cf.shopee.co.id/file/".

Section Pipeline.

Context {World : Type} (E : Env World).

Record State := {
  world : World;
  trace : list Event
}.

(** Computations that call the outside. *)
Definition M (A : Type) : Type := State -> A * State.

Definition ret {A} (a : A) : M A := fun st => (a, st).
Definition bind {A B} (m : M A) (k : A -> M B) : M B :=
  fun st => let (a, st') := m st in k a st'.

Notation "x <- m ;; k" := (bind m (fun x => k))
  (at level 100, m at next level, right associativity).
Notation "m ;;; k" := (bind m (fun _ => k))
  (at level 100, right associativity).

Definition emit (e : Event) (st : State) : State :=
  {| world := world st; trace := trace st ++ [e] |}.

Definition scan_reference_images : M (gmap string (list string)) :=
  fun st =>
    let reference_data := load_reference_images (env_fs E (world st)) in
    (reference_data, emit (EvScan reference_data) st).

Definition session_get (url : string) (timeout : option Z) : M HttpOutcome :=
  fun st =>
    let (outcome, w) := env_get E (world st) url timeout in
    (outcome, {| world := w; trace := trace st ++ [EvGet url timeout] |}).

Definition vision_create (reference candidate : string) : M VisionOutcome :=
  fun st =>
    let (outcome, w) := env_vision E (world st) reference candidate in
    (outcome,
     {| world := w; trace := trace st ++ [EvVision reference candidate] |}).

(** Lines 154-163, taken to succeed: the file is written whole. *)
Definition write_csv (rows : list ResultRow) : M unit :=
  fun st => (tt, emit (EvCsv rows) st).

Definition NO_REFERENCE : string :=
  "Error: No reference images found for this category".

Definition compare_with_reference (image_url product_category : string)
  : M (string * Q) :=
  reference_data <- scan_reference_images ;;
  let reference_images := default [] (reference_data !! product_category) in
  match reference_images with
  | [] => ret (NO_REFERENCE, 0%Q)
  | reference :: _ =>
      (* try: *)
      outcome <- vision_create reference image_url ;;
      match outcome with
      | Completion (Some content) =>
          let result := PyStr.strip content in
          let confidence := if String.eqb result "Pass" then 1%Q else 0%Q in
          ret (result, confidence)
      | Completion None =>
          (* None.strip(): AttributeError, caught below *)
          ret ("Error", 0%Q)
      | RaisesException =>
          (* except Exception: *)
          ret ("Error", 0%Q)
      end
  end.

(** [f"{img_id}"] *)
Definition py_format (img_id : Json) : string :=
  match img_id with
  | JString s => s
  | other => env_format E other
  end.

Definition cdn_url (img_id : Json) : string := CDN_PREFIX +:+ py_format img_id.

(** The loop over [product_images], lines 144-152. *)
Fixpoint judge_images (product_images : list Json) (product_category : string)
  : M (list ResultRow) :=
  match product_images with
  | [] => ret []
  | img_id :: rest =>
      let image_url := cdn_url img_id in
      judged <- compare_with_reference image_url product_category ;;
      results <- judge_images rest product_category ;;
      ret ({| image_url := image_url;
              classification := fst judged;
              confidence := snd judged |} :: results)
  end.

Definition is_pass (r : ResultRow) : bool := String.eqb (classification r) "Pass".

(** Lines 154-176: the CSV file, the counts and the value returned. *)
Definition report (results : list ResultRow) : M Result :=
  write_csv results ;;;
  let pass_count := length (filter (fun r => is_pass r = true) results) in
  let total_images := length results in
  match results with
  | first :: _ =>
      ret (Returns (Summary total_images pass_count (total_images - pass_count))
                   (Some (image_url first)))
  | [] => ret (Raises IndexError)
  end.

Definition ERR_URL_REQUIRED : string := "Error: Product URL is required.".
Definition ERR_INVALID_URL : string :=
  "Error: Invalid Shopee URL format. Please try again.".
Definition ERR_NO_IMAGES : string := "Error: No product images found.".
Definition ERR_TIMEOUT : string := "Error: Request timed out. Please try again.".
Definition err_http (status_code : Z) : string :=
  "Error: Failed to fetch product data (HTTP " +:+ pretty status_code +:+ ").".
Definition err_request (detail : string) : string :=
  "Error: Failed to fetch data: " +:+ detail.

(** [product_data.get('data', {}).get('product_info', {}).get('images', [])] *)
Definition images_of (product_data : Json) : PyException + Json :=
  match py_get product_data "data" (JDict []) with
  | inl e => inl e
  | inr data =>
      match py_get data "product_info" (JDict []) with
      | inl e => inl e
      | inr product_info => py_get product_info "images" (JList [])
      end
  end.

(** Lines 136-176: from the decoded body on. *)
Definition check_images (product_data : Json) (product_category : string)
  : M Result :=
  match images_of product_data with
  | inl e => ret (Raises e)
  | inr product_images =>
      if negb (py_truthy product_images)
      then ret (Returns (Text ERR_NO_IMAGES) None)
      else
        match py_iter product_images with
        | inl e => ret (Raises e)
        | inr ids =>
            results <- judge_images ids product_category ;;
            report results
        end
  end.

Definition api_url (shop_id item_id : string) : string :=
  "https://shopee.co.id/api/v4/pdp/get_pc?shop_id=" +:+ shop_id
    +:+ "&item_id=" +:+ item_id.

(** Lines 128-176 and the handlers of lines 178-181: the API request. *)
Definition fetch_and_check (shop_id item_id product_category : string)
  : M Result :=
  let product_url := api_url shop_id item_id in
  response <- session_get product_url (Some 10%Z) ;;
  match response with
  | RaisesTimeout => ret (Returns (Text ERR_TIMEOUT) None)
  | RaisesRequestException detail => ret (Returns (Text (err_request detail)) None)
  | Response status_code json =>
      if negb (status_code =? 200)%Z
      then ret (Returns (Text (err_http status_code)) None)
      else
        match json with
        | inl detail => ret (Returns (Text (err_request detail)) None)
        | inr product_data => check_images product_data product_category
        end
  end.

Definition listing_page (shop_id item_id : string) : string :=
  "https://shopee.co.id/-i." +:+ shop_id +:+ "." +:+ item_id.

(** Lines 121-181: the [try] block and its handlers. *)
Definition fetch_listing (shop_id item_id product_category : string)
  : M Result :=
  page <- session_get (listing_page shop_id item_id) None ;;
  match page with
  | RaisesTimeout => ret (Returns (Text ERR_TIMEOUT) None)
  | RaisesRequestException detail => ret (Returns (Text (err_request detail)) None)
  | Response _ _ => fetch_and_check shop_id item_id product_category
  end.

(** Lines 91-99: the identifiers of the listing, or what the function
    ends with instead. *)
Definition parse_product_url (product_url : string)
  : Result + (string * string) :=
  if PyStr.falsy product_url || PyStr.falsy (PyStr.strip product_url)
  then inl (Returns (Text ERR_URL_REQUIRED) None)
  else
    match Re.search URL_PATTERN product_url with
    | None => inl (Returns (Text ERR_INVALID_URL) None)
    | Some [shop_id; item_id] => inr (shop_id, item_id)
    | Some _ => inl (Raises ValueError)   (* unpacking match.groups() *)
    end.

Definition scrape_shopee_reviews (product_url product_category : string)
  : M Result :=
  match parse_product_url product_url with
  | inl result => ret result
  | inr (shop_id, item_id) => fetch_listing shop_id item_id product_category
  end.

End Pipeline.

(** ** Vocabulary of the statements *)

(** An extension as the loader accepts it: one of the three, in any
    combination of cases. *)
Definition image_extension (ext : string) : Prop :=
  In (PyStr.lower ext) IMAGE_EXTENSIONS.

(** One step of the outer loop of [load_reference_images]. *)
Definition load_step (fs : FileSystem)
    (reference_data : gmap string (list string)) (category : string) :=
  let category_path := os_path_join REFERENCE_IMAGES_DIR category in
  if os_path_isdir fs category_path
  then <[category := category_images fs category_path]> reference_data
  else reference_data.

(** The verdicts of the data model.  The program has no such type: a row
    carries the classification text, and the only test ever made on it is
    the comparison with ["Pass"] of line 165.  [verdict_of] reads a text as
    a verdict: ["Pass"] is [Pass]; a text that begins with ["Error"], as
    the two texts the program itself returns for an error do (lines 40 and
    88), is [Error]; any other text is [NotPass]. *)
Inductive Verdict := Pass | NotPass | Error.

Definition verdict_of (classification : string) : Verdict :=
  if String.eqb classification "Pass" then Pass
  else if PyStr.startswith classification "Error" then Error
  else NotPass.

#[global] Instance Verdict_eq_dec : EqDecision Verdict.
Proof. solve_decision. Defined.

(** The mappings seen by the walks of the reference directory, in order. *)
Definition scans_of (t : list Event) : list (gmap string (list string)) :=
  omap (fun e => match e with EvScan m => Some m | _ => None end) t.

(** The service calls made, in order. *)
Definition vision_calls (t : list Event) : list (string * string) :=
  omap (fun e => match e with EvVision r c => Some (r, c) | _ => None end) t.

(** The HTTP requests made, in order. *)
Definition requests_of (t : list Event) : list string :=
  omap (fun e => match e with EvGet url _ => Some url | _ => None end) t.

(** The CSV files written, in order. *)
Definition csv_writes (t : list Event) : list (list ResultRow) :=
  omap (fun e => match e with EvCsv rows => Some rows | _ => None end) t.

(** *** Names of files, whatever the case of their letters *)

(** [c] is the character [t] or, when [t] is one of the letters a-z, its
    capital: the character 32 code points below it. *)
Definition letter_ignoring_case (c t : ascii) : bool :=
  Ascii.eqb c t
  || ((97 <=? PyStr.code t) && (PyStr.code t <=? 122)
      && (PyStr.code c + 32 =? PyStr.code t))%N.

Fixpoint letters_ignoring_case (s t : list ascii) : bool :=
  match s, t with
  | [], [] => true
  | c :: s', d :: t' => letter_ignoring_case c d && letters_ignoring_case s' t'
  | _, _ => false
  end.

(** [s] is the text [t], each letter of it written small or capital. *)
Definition written_ignoring_case (s t : string) : bool :=
  letters_ignoring_case (PyStr.chars s) (PyStr.chars t).

(** The characters of the three extensions. *)
Definition extension_letter (t : ascii) : Prop :=
  In t (PyStr.chars ".pngje").

(** *** Listing URLs *)

(** A text of decimal digits, at least one. *)
Definition digits (s : string) : Prop :=
  s <> "" /\ Forall (fun c => PyStr.isdigit c = true) (PyStr.chars s).

(** [url] reads [before], then the segment [i.<shop_id>.<item_id>], then
    [after]. *)
Definition segment_at (url before shop_id item_id after : string) : Prop :=
  url = before +:+ "i." +:+ shop_id +:+ "." +:+ item_id +:+ after
  /\ digits shop_id /\ digits item_id.

Definition has_segment (url : string) : Prop :=
  exists before shop_id item_id after,
    segment_at url before shop_id item_id after.

(** The segment taken whole: no further digit follows [item_id]. *)
Definition whole_segment_at (url before shop_id item_id after : string) : Prop :=
  segment_at url before shop_id item_id after
  /\ match PyStr.chars after with
     | c :: _ => PyStr.isdigit c = false
     | [] => True
     end.

(** The two ways in which the function turns a URL down. *)
Definition is_InvalidUrl (result : Result) : Prop :=
  result = Returns (Text ERR_URL_REQUIRED) None
  \/ result = Returns (Text ERR_INVALID_URL) None.

(** The longest run of digits at the start of a text, and what follows. *)
Fixpoint take_digits (s : list ascii) : list ascii :=
  match s with
  | c :: s' => if PyStr.isdigit c then c :: take_digits s' else []
  | [] => []
  end.

Fixpoint drop_digits (s : list ascii) : list ascii :=
  match s with
  | c :: s' => if PyStr.isdigit c then drop_digits s' else s
  | [] => []
  end.

(** The segment at the very start of a text, read without backtracking:
    [i], [.], the longest run of digits, [.], the longest run of digits. *)
Definition segment_here (s : list ascii) : option (list ascii * list ascii) :=
  match s with
  | c1 :: c2 :: s1 =>
      if Ascii.eqb "i" c1 && Ascii.eqb "." c2 then
        match take_digits s1, drop_digits s1 with
        | _ :: _, c3 :: s2 =>
            if Ascii.eqb "." c3 then
              match take_digits s2 with
              | _ :: _ => Some (take_digits s1, take_digits s2)
              | [] => None
              end
            else None
        | _, _ => None
        end
      else None
  | _ => None
  end.

(** The pattern at the very start of a text, as [re.match] tries it. *)
Definition match_start (r : Re.regex) (s : list ascii) : option (list string) :=
  Re.match_here r s [] (fun _ groups => Some groups).

(** ** The front end *)

(** Lines 191-192: the categories offered in the dropdown. *)
Definition categories (fs : FileSystem) : list string :=
  filter (fun d => os_path_isdir fs (os_path_join REFERENCE_IMAGES_DIR d) = true)
         (os_listdir fs REFERENCE_IMAGES_DIR).

Section FrontEnd.

Context {World Image : Type} (E : Env World).

(** [Image.open(BytesIO(requests.get(url).content))]: the picture, or
    [None] when the request or the decoding raises. *)
Variable open_image : World -> string -> option Image * World.

(** The state of a call of the front end: that of the run, and the images
    fetched for display. *)
Record Session := {
  pipeline : @State World;
  fetched : list string
}.

(** What [gradio_scrape] ends with: the two values returned, or an
    exception that leaves the function. *)
Inductive Shown :=
| Shows (result : Message) (img : option Image)
| Fails.

(** Lines 183-188. *)
Definition gradio_scrape (product_url product_category : string)
    (s : Session) : Shown * Session :=
  let (outcome, st) :=
    scrape_shopee_reviews E product_url product_category (pipeline s) in
  match outcome with
  | Raises _ => (Fails, {| pipeline := st; fetched := fetched s |})
  | Returns result image_url =>
      match image_url with
      | Some url =>
          if PyStr.falsy url
          then (Shows result None, {| pipeline := st; fetched := fetched s |})
          else
            let (img, w) := open_image (world st) url in
            let s' := {| pipeline := {| world := w; trace := trace st |};
                         fetched := fetched s ++ [url] |} in
            match img with
            | Some picture => (Shows result (Some picture), s')
            | None => (Fails, s')
            end
      | None => (Shows result None, {| pipeline := st; fetched := fetched s |})
      end
  end.

End FrontEnd.

(** A row whose confidence agrees with its classification: 1 for ["Pass"],
    0 for anything else. *)
Definition row_agrees (classification : string) (confidence : Q) : Prop :=
  (classification = "Pass" /\ confidence = 1%Q)
  \/ (classification <> "Pass" /\ confidence = 0%Q).

(** The state after a request has been made and answered. *)
Definition after_get {World : Type} (E : Env World) (url : string)
    (timeout : option Z) (st : @State World) : @State World :=
  {| world := snd (env_get E (world st) url timeout);
     trace := trace st ++ [EvGet url timeout] |}.

(** A key of the path [data.product_info.images] is missing from the dict
    that should hold it. *)
Definition path_missing (product_data : Json) : Prop :=
  (exists items, product_data = JDict items /\ dict_lookup "data" items = None)
  \/ (exists items data,
        product_data = JDict items
        /\ dict_lookup "data" items = Some (JDict data)
        /\ dict_lookup "product_info" data = None)
  \/ (exists items data info,
        product_data = JDict items
        /\ dict_lookup "data" items = Some (JDict data)
        /\ dict_lookup "product_info" data = Some (JDict info)
        /\ dict_lookup "images" info = None).

(** ** Example environments *)

Module Examples.

(** A reference directory with the single category [bags], holding one
    image. *)
Definition fs_bags : FileSystem := {|
  os_listdir := fun path =>
    if String.eqb path "reference_images" then ["bags"]
    else if String.eqb path "reference_images/bags" then ["ref.jpg"]
    else [];
  os_path_isdir := fun path => String.eqb path "reference_images/bags"
|}.

(** An empty reference directory. *)
Definition fs_empty : FileSystem := {|
  os_listdir := fun _ => [];
  os_path_isdir := fun _ => false
|}.

(** A reference directory with the category [bags] holding two [.jpg]
    files and a [.txt] file. *)
Definition fs_mixed : FileSystem := {|
  os_listdir := fun path =>
    if String.eqb path "reference_images" then ["bags"]
    else if String.eqb path "reference_images/bags"
         then ["front.jpg"; "notes.txt"; "back.jpg"]
    else [];
  os_path_isdir := fun path => String.eqb path "reference_images/bags"
|}.

(** A reference directory whose category [bags] holds no image. *)
Definition fs_no_image : FileSystem := {|
  os_listdir := fun path =>
    if String.eqb path "reference_images" then ["bags"]
    else if String.eqb path "reference_images/bags" then ["notes.txt"]
    else [];
  os_path_isdir := fun path => String.eqb path "reference_images/bags"
|}.

(** The body of a listing with the images [A] and [B]. *)
Definition listing_AB : Json :=
  JDict [("data",
          JDict [("product_info",
                  JDict [("images", JList [JString "A"; JString "B"])])])].

(** The body the API answers with when it refuses a request. *)
Definition listing_refused : Json :=
  JDict [("error", JNumber (90309999 # 1)); ("data", JNull)].

Definition format_other (_ : Json) : string := "<object>".

(** The world is the number of calls made to the outside so far. *)
Definition start : @State nat := {| world := 0; trace := [] |}.

(** Every request is answered with [body]; the service answers every
    comparison as [vision] says, from its call number and the candidate. *)
Definition env (fs : nat -> FileSystem) (body : Json)
    (vision : nat -> string -> VisionOutcome) : Env nat := {|
  env_fs := fs;
  env_get := fun w _ _ => (Response 200 (inr body), S w);
  env_vision := fun w _ candidate => (vision w candidate, S w);
  env_format := format_other
|}.

(** The service answers every comparison with the text [reply]. *)
Definition service_says (reply : string) : Env nat :=
  env (fun _ => fs_bags) listing_AB (fun _ _ => Completion (Some reply)).


(** The service raises on the image [A] and passes everything else. *)
Definition service_fails_on_A : Env nat :=
  env (fun _ => fs_bags) listing_AB
      (fun _ candidate =>
         if String.eqb candidate "https://cf.shopee.co.id/file/A"
         then RaisesException else Completion (Some "Pass")).

(** The service passes the image [A] and answers nonsense otherwise. *)
Definition service_passes_A : Env nat :=
  env (fun _ => fs_bags) listing_AB
      (fun _ candidate =>
         if String.eqb candidate "https://cf.shopee.co.id/file/A"
         then Completion (Some "Pass") else Completion (Some "garbage")).

(** The reference image of [bags] is removed while the run is under way:
    it is there until the third call to the outside has been made. *)
Definition store_changes : Env nat :=
  env (fun w => if (w <? 3)%nat then fs_bags else fs_empty) listing_AB
      (fun _ _ => Completion (Some "Pass")).

(** The visit of the listing page fails; the API would have answered. *)
Definition page_unreachable : Env nat := {|
  env_fs := fun _ => fs_bags;
  env_get := fun w _ timeout =>
    match timeout with
    | None => (RaisesRequestException "connection refused", S w)
    | Some _ => (Response 200 (inr listing_AB), S w)
    end;
  env_vision := fun w _ _ => (Completion (Some "Pass"), S w);
  env_format := format_other
|}.

(** The listing page answers 403; the API answers the listing. *)
Definition page_forbidden : Env nat := {|
  env_fs := fun _ => fs_bags;
  env_get := fun w _ timeout =>
    match timeout with
    | None => (Response 403 (inl "not JSON"), S w)
    | Some _ => (Response 200 (inr listing_AB), S w)
    end;
  env_vision := fun w _ _ => (Completion (Some "Pass"), S w);
  env_format := format_other
|}.

(** The API refuses the request. *)
Definition api_refuses : Env nat :=
  env (fun _ => fs_bags) listing_refused (fun _ _ => Completion (Some "Pass")).

Definition LISTING_URL : string := "https://example.co.id/-i.111.222".

End Examples.

(** Further example environments. *)

Module MoreExamples.
Import Examples.

(** The listing page answers; the API request ends as [outcome] says. *)
Definition api_answers (outcome : HttpOutcome) : Env nat := {|
  env_fs := fun _ => fs_bags;
  env_get := fun w _ timeout =>
    match timeout with
    | None => (Response 200 (inl "not JSON"), S w)
    | Some _ => (outcome, S w)
    end;
  env_vision := fun w _ _ => (Completion (Some "Pass"), S w);
  env_format := format_other
|}.

(** A body whose [product_info] has no [images]. *)
Definition listing_without_images : Json :=
  JDict [("data", JDict [("product_info", JDict [("name", JString "tas")])])].

End MoreExamples.

(** * Properties *)

(** ** Strings *)

Module PyStrFacts.
Import PyStr.

Lemma str_chars s : str (chars s) = s.
Proof. apply string_of_list_ascii_of_string. Qed.

Lemma chars_str l : chars (str l) = l.
Proof. apply list_ascii_of_string_of_list_ascii. Qed.

Lemma chars_inj s t : chars s = chars t -> s = t.
Proof. intros H. rewrite <- (str_chars s), <- (str_chars t). now rewrite H. Qed.

Lemma chars_app s t : chars (s +:+ t) = chars s ++ chars t.
Proof. induction s as [|c s IH]; simpl; [reflexivity | now rewrite <- IH]. Qed.

Lemma str_app l k : str (l ++ k) = str l +:+ str k.
Proof. apply chars_inj. now rewrite chars_app, !chars_str. Qed.

Lemma chars_lower s : chars (lower s) = map lower_char (chars s).
Proof. apply chars_str. Qed.

Lemma lower_app s t : lower (s +:+ t) = lower s +:+ lower t.
Proof.
  apply chars_inj.
  now rewrite chars_app, !chars_lower, chars_app, map_app.
Qed.

Lemma starts_with_spec p l :
  starts_with p l = true <-> exists r, l = p ++ r.
Proof.
  revert l. induction p as [|a p IH]; intros l; simpl.
  - split; [eauto | reflexivity].
  - destruct l as [|b l].
    + split; [discriminate | intros [r Hr]; discriminate].
    + destruct (Ascii.eqb_spec a b) as [->|Hab].
      * rewrite IH. split; intros [r Hr]; exists r; congruence.
      * split; [discriminate | intros [r Hr]; congruence].
Qed.

Lemma endswith_spec s p :
  endswith s p = true <-> exists stem, s = stem +:+ p.
Proof.
  unfold endswith. rewrite starts_with_spec. split.
  - intros [r Hr]. exists (str (rev r)). apply chars_inj.
    rewrite chars_app, chars_str, <- (rev_involutive (chars s)), Hr.
    now rewrite rev_app_distr, rev_involutive.
  - intros [stem ->]. exists (rev (chars stem)).
    now rewrite chars_app, rev_app_distr.
Qed.

Lemma falsy_spec s : falsy s = true <-> s = "".
Proof. apply String.eqb_eq. Qed.

End PyStrFacts.

(** ** The reference library loader *)

Section Loader.
Import PyStr PyStrFacts.

Lemma is_image_file_spec img_file :
  is_image_file img_file = true <->
  exists stem ext, img_file = stem +:+ ext /\ image_extension ext.
Proof.
  unfold is_image_file, endswith_any, image_extension.
  rewrite existsb_exists. split.
  - intros (e & He & Hend). apply endswith_spec in Hend as [stem' Hs].
    pose (n := length (chars stem')).
    exists (str (take n (chars img_file))), (str (drop n (chars img_file))).
    split.
    + now rewrite <- str_app, take_drop, str_chars.
    + assert (Hm : map lower_char (chars img_file) = chars stem' ++ chars e)
        by now rewrite <- chars_lower, Hs, chars_app.
      assert (lower (str (drop n (chars img_file))) = e) as ->; [|exact He].
      apply chars_inj.
      rewrite chars_lower, chars_str.
      rewrite <- skipn_map, Hm. subst n. now rewrite drop_app_length.
  - intros (stem & ext & -> & He). exists (lower ext). split; [exact He|].
    rewrite lower_app. apply endswith_spec. eauto.
Qed.

Lemma category_images_filter fs category_path :
  category_images fs category_path =
  map (os_path_join category_path)
      (filter (fun f => is_image_file f = true) (os_listdir fs category_path)).
Proof.
  unfold category_images.
  generalize (os_listdir fs category_path) as l.
  enough (H : forall l acc,
    foldl (fun images img_file =>
             if is_image_file img_file
             then images ++ [os_path_join category_path img_file]
             else images) acc l
    = acc ++ map (os_path_join category_path)
                 (filter (fun f => is_image_file f = true) l))
    by (intros l; apply (H l [])).
  induction l as [|f l IH]; intros acc; cbn [foldl].
  - now rewrite filter_nil, app_nil_r.
  - rewrite IH, filter_cons.
    destruct (decide (is_image_file f = true)) as [Hf|Hf].
    + rewrite Hf. cbn [map]. now rewrite <- app_assoc.
    + apply not_true_is_false in Hf. now rewrite Hf.
Qed.

Lemma load_fold_lookup fs categories (m : gmap string (list string)) c :
  foldl (load_step fs) m categories !! c =
  if decide (c ∈ categories /\
             os_path_isdir fs (os_path_join REFERENCE_IMAGES_DIR c) = true)
  then Some (category_images fs (os_path_join REFERENCE_IMAGES_DIR c))
  else m !! c.
Proof.
  revert m. induction categories as [|d categories IH]; intros m; cbn [foldl].
  - rewrite decide_False; [reflexivity | intros [Hin _]; inversion Hin].
  - rewrite IH. unfold load_step. cbv zeta.
    destruct (decide (c ∈ categories /\ _)) as [[Hin Hdir]|Hn].
    + rewrite decide_True; [reflexivity | split; [now right | assumption]].
    + destruct (decide (c = d)) as [->|Hcd].
      * destruct (os_path_isdir fs (os_path_join REFERENCE_IMAGES_DIR d)) eqn:Hd.
        -- rewrite lookup_insert_eq, decide_True; [reflexivity|].
           split; [left | reflexivity].
        -- rewrite decide_False; [reflexivity | intros [_ ?]; congruence].
      * rewrite decide_False.
        -- destruct (os_path_isdir fs (os_path_join REFERENCE_IMAGES_DIR d));
             [|reflexivity].
           now rewrite lookup_insert_ne.
        -- intros [Hin Hdir]. apply Hn. split; [|assumption].
           apply elem_of_cons in Hin as [?|?]; [congruence | assumption].
Qed.

Lemma load_reference_images_lookup fs c :
  load_reference_images fs !! c =
  if decide (c ∈ os_listdir fs REFERENCE_IMAGES_DIR /\
             os_path_isdir fs (os_path_join REFERENCE_IMAGES_DIR c) = true)
  then Some (category_images fs (os_path_join REFERENCE_IMAGES_DIR c))
  else None.
Proof.
  unfold load_reference_images.
  change (foldl _ ∅ ?l) with (foldl (load_step fs) ∅ l).
  now rewrite load_fold_lookup, lookup_empty.
Qed.

End Loader.

Section LoaderContract.
Import PyStr PyStrFacts.

Lemma jpg_is_image stem : is_image_file (stem +:+ ".jpg") = true.
Proof.
  apply is_image_file_spec. exists stem, ".jpg". split; [reflexivity|].
  unfold image_extension. vm_compute. tauto.
Qed.

Lemma txt_is_no_image stem : is_image_file (stem +:+ ".txt") = false.
Proof.
  unfold is_image_file, endswith_any, IMAGE_EXTENSIONS, endswith.
  rewrite lower_app, chars_app, rev_app_distr. reflexivity.
Qed.

Lemma load_single_category fs category :
  os_listdir fs REFERENCE_IMAGES_DIR = [category] ->
  os_path_isdir fs (os_path_join REFERENCE_IMAGES_DIR category) = true ->
  load_reference_images fs =
  {[ category := category_images fs (os_path_join REFERENCE_IMAGES_DIR category) ]}.
Proof.
  intros Hroot Hdir. unfold load_reference_images.
  rewrite Hroot. cbn [foldl]. rewrite Hdir. apply insert_empty.
Qed.

(** [lower] turns a character into a character of an extension exactly when
    it is that character or, for a letter, its capital. *)
Lemma lower_char_extension_letter c t :
  extension_letter t ->
  Ascii.eqb (lower_char c) t = letter_ignoring_case c t.
Proof.
  intros Ht. unfold extension_letter in Ht. cbn in Ht.
  destruct Ht as [<-|[<-|[<-|[<-|[<-|[<-|[]]]]]]];
    destruct c as [[] [] [] [] [] [] [] []]; vm_compute; reflexivity.
Qed.

Lemma lower_letters s t :
  Forall extension_letter t ->
  map lower_char s = t <-> letters_ignoring_case s t = true.
Proof.
  intros Ht. revert s. induction Ht as [|d t Hd _ IH]; intros [|c s]; cbn.
  - tauto.
  - split; discriminate.
  - split; discriminate.
  - rewrite andb_true_iff, <- (lower_char_extension_letter c d Hd), <- IH.
    rewrite Ascii.eqb_eq. split; [intros [= -> ->]; auto | intros [-> ->]; auto].
Qed.

Lemma lower_extension ext t :
  Forall extension_letter (chars t) ->
  lower ext = t <-> written_ignoring_case ext t = true.
Proof.
  intros Ht. unfold written_ignoring_case. rewrite <- (lower_letters _ _ Ht).
  rewrite <- chars_lower. split; [now intros -> | apply chars_inj].
Qed.

Lemma extension_letters :
  Forall (fun t => Forall extension_letter (chars t)) IMAGE_EXTENSIONS.
Proof.
  unfold IMAGE_EXTENSIONS. cbn.
  repeat match goal with |- Forall _ _ => constructor end;
    unfold extension_letter; cbn; auto 10.
Qed.

Lemma image_extension_letters t :
  In t IMAGE_EXTENSIONS -> Forall extension_letter (chars t).
Proof.
  intros Ht. pose proof extension_letters as Hall.
  rewrite Forall_forall in Hall. apply Hall. now apply list_elem_of_In.
Qed.

(** C8.  The loader on an empty root gives the empty mapping; on a root
    whose only entry is a directory holding two [.jpg] files and one
    [.txt] file (in whatever order the directory lists them) it gives
    exactly one category, with exactly the two [.jpg] paths; a file counts
    as an image exactly when it ends in png, jpg or jpeg written in any
    combination of cases; and a category directory without any such file
    is kept, with an empty list.  The case of the letters is stated twice:
    through [lower], as the program tests it, and (last part) letter by
    letter, each letter of the extension being the small one or its
    capital. *)
Theorem C8_load_reference_images_contract :
  (forall fs,
      os_listdir fs REFERENCE_IMAGES_DIR = [] ->
      load_reference_images fs = ∅)
  /\ (forall fs category a b t,
        let category_path := os_path_join REFERENCE_IMAGES_DIR category in
        os_listdir fs REFERENCE_IMAGES_DIR = [category] ->
        os_path_isdir fs category_path = true ->
        os_listdir fs category_path
          ≡ₚ [a +:+ ".jpg"; b +:+ ".jpg"; t +:+ ".txt"] ->
        exists images,
          load_reference_images fs = {[ category := images ]}
          /\ size (load_reference_images fs) = 1
          /\ length images = 2
          /\ images ≡ₚ [os_path_join category_path (a +:+ ".jpg");
                        os_path_join category_path (b +:+ ".jpg")])
  /\ (forall img_file,
        is_image_file img_file = true <->
        exists stem ext,
          img_file = stem +:+ ext /\
          (lower ext = ".png" \/ lower ext = ".jpg" \/ lower ext = ".jpeg"))
  /\ (forall fs category,
        let category_path := os_path_join REFERENCE_IMAGES_DIR category in
        category ∈ os_listdir fs REFERENCE_IMAGES_DIR ->
        os_path_isdir fs category_path = true ->
        (forall f, f ∈ os_listdir fs category_path -> is_image_file f = false) ->
        load_reference_images fs !! category = Some [])
  /\ (forall img_file,
        is_image_file img_file = true <->
        exists stem ext,
          img_file = stem +:+ ext /\
          (written_ignoring_case ext ".png" = true
           \/ written_ignoring_case ext ".jpg" = true
           \/ written_ignoring_case ext ".jpeg" = true)).
Proof.
  split; [|split; [|split; [|split]]].
  - intros fs Hroot. unfold load_reference_images. now rewrite Hroot.
  - intros fs category a b t category_path Hroot Hdir Hfiles.
    exists (category_images fs category_path).
    assert (Himgs : category_images fs category_path
              ≡ₚ [os_path_join category_path (a +:+ ".jpg");
                  os_path_join category_path (b +:+ ".jpg")]).
    { rewrite category_images_filter, Hfiles.
      rewrite !filter_cons, filter_nil.
      rewrite !decide_True by apply jpg_is_image.
      rewrite decide_False by (rewrite txt_is_no_image; discriminate).
      reflexivity. }
    rewrite (load_single_category fs category Hroot Hdir).
    repeat split; [apply map_size_singleton | | exact Himgs].
    now rewrite Himgs.
  - intros img_file. rewrite is_image_file_spec.
    split; intros (stem & ext & Heq & Hext); exists stem, ext; (split; [exact Heq|]).
    + destruct Hext as [H|[H|[H|[]]]]; auto.
    + unfold image_extension, IMAGE_EXTENSIONS. simpl.
      destruct Hext as [H|[H|H]]; auto.
  - intros fs category category_path Hin Hdir Hnone.
    rewrite load_reference_images_lookup, decide_True by (split; assumption).
    f_equal. rewrite category_images_filter.
    fold category_path.
    induction (os_listdir fs category_path) as [|f l IH]; [reflexivity|].
    rewrite filter_cons, decide_False.
    + apply IH. intros g Hg. apply Hnone. now right.
    + rewrite Hnone by left. discriminate.
  - intros img_file. rewrite is_image_file_spec.
    unfold image_extension, IMAGE_EXTENSIONS. cbn [In].
    assert (Hpng : Forall extension_letter (chars ".png"))
      by (apply image_extension_letters; cbn; auto).
    assert (Hjpg : Forall extension_letter (chars ".jpg"))
      by (apply image_extension_letters; cbn; auto).
    assert (Hjpeg : Forall extension_letter (chars ".jpeg"))
      by (apply image_extension_letters; cbn; auto).
    split; intros (stem & ext & Heq & Hext); exists stem, ext; (split; [exact Heq|]).
    + destruct Hext as [H|[H|[H|[]]]]; symmetry in H.
      * left. now apply (lower_extension ext ".png" Hpng).
      * right. left. now apply (lower_extension ext ".jpg" Hjpg).
      * right. right. now apply (lower_extension ext ".jpeg" Hjpeg).
    + destruct Hext as [H|[H|H]].
      * left. symmetry. now apply (lower_extension ext ".png" Hpng).
      * right. left. symmetry. now apply (lower_extension ext ".jpg" Hjpg).
      * right. right. left. symmetry.
        now apply (lower_extension ext ".jpeg" Hjpeg).
Qed.

End LoaderContract.


(** ** The authenticity judge *)

Section Judge.
Context {World : Type} (E : Env World).
Implicit Types st : @State World.

Lemma scans_of_app t1 t2 : scans_of (t1 ++ t2) = scans_of t1 ++ scans_of t2.
Proof. apply omap_app. Qed.

Lemma vision_calls_app t1 t2 :
  vision_calls (t1 ++ t2) = vision_calls t1 ++ vision_calls t2.
Proof. apply omap_app. Qed.

Lemma csv_writes_app t1 t2 : csv_writes (t1 ++ t2) = csv_writes t1 ++ csv_writes t2.
Proof. apply omap_app. Qed.

(** The judge when the category has no reference image: nothing but the
    walk of the directory happens. *)
Lemma compare_without_reference image_url category st :
  default [] (load_reference_images (env_fs E (world st)) !! category) = [] ->
  compare_with_reference E image_url category st =
  ((NO_REFERENCE, 0%Q),
   emit (EvScan (load_reference_images (env_fs E (world st)))) st).
Proof.
  intros Hnone. unfold compare_with_reference, bind, scan_reference_images.
  now rewrite Hnone.
Qed.

(** The judge when the category has a reference image: one call of the
    service with the first one, and the pair made from its outcome. *)
Lemma compare_with_first_reference image_url category st reference rest :
  default [] (load_reference_images (env_fs E (world st)) !! category)
    = reference :: rest ->
  compare_with_reference E image_url category st =
  (match fst (env_vision E (world st) reference image_url) with
   | Completion (Some content) =>
       (PyStr.strip content,
        if String.eqb (PyStr.strip content) "Pass" then 1%Q else 0%Q)
   | _ => ("Error", 0%Q)
   end,
   {| world := snd (env_vision E (world st) reference image_url);
      trace := trace st
                 ++ [EvScan (load_reference_images (env_fs E (world st)));
                     EvVision reference image_url] |}).
Proof.
  intros Href.
  unfold compare_with_reference, bind, scan_reference_images, vision_create.
  rewrite Href. cbn [emit world trace].
  destruct (env_vision E (world st) reference image_url) as [outcome w].
  rewrite <- app_assoc. cbn [app fst snd].
  destruct outcome as [[content|]|]; reflexivity.
Qed.

Lemma verdict_of_Pass classification :
  verdict_of classification = Pass <-> classification = "Pass".
Proof.
  unfold verdict_of. destruct (String.eqb_spec classification "Pass") as [->|Hne].
  - tauto.
  - destruct (PyStr.startswith classification "Error"); split;
      (discriminate || contradiction).
Qed.


(** C6.  With a category that has no entry in the mapping, or an empty one,
    the judge returns an Error result with confidence 0 at once: the only
    thing it has done is to walk the reference directory, and the service
    has not been called. *)
Theorem C6_no_reference_means_no_service_call :
  forall image_url category st,
    (load_reference_images (env_fs E (world st)) !! category = None
     \/ load_reference_images (env_fs E (world st)) !! category = Some []) ->
    exists st',
      compare_with_reference E image_url category st = ((NO_REFERENCE, 0%Q), st')
      /\ verdict_of NO_REFERENCE = Error
      /\ world st' = world st
      /\ vision_calls (trace st') = vision_calls (trace st).
Proof.
  intros image_url category st Hnone.
  eexists. split; [|split; [reflexivity|split]].
  - apply compare_without_reference. now destruct Hnone as [-> | ->].
  - reflexivity.
  - cbn [emit trace]. rewrite vision_calls_app. cbn. apply app_nil_r.
Qed.

Lemma judge_images_cons img_id rest category st :
  judge_images E (img_id :: rest) category st =
  let judged := compare_with_reference E (cdn_url E img_id) category st in
  let others := judge_images E rest category (snd judged) in
  ({| image_url := cdn_url E img_id;
      classification := fst (fst judged);
      confidence := snd (fst judged) |} :: fst others,
   snd others).
Proof.
  cbn [judge_images]. unfold bind, ret.
  destruct (compare_with_reference E (cdn_url E img_id) category st) as [judged st1].
  cbn [fst snd].
  now destruct (judge_images E rest category st1) as [results st2].
Qed.


(** One row for each image, in the order of the listing. *)
Lemma judge_images_urls ids category st :
  map image_url (fst (judge_images E ids category st)) = map (cdn_url E) ids.
Proof.
  revert st. induction ids as [|img_id ids IH]; intros st; [reflexivity|].
  rewrite judge_images_cons. cbn. now rewrite IH.
Qed.


End Judge.

(** *** The judge on the example environments *)

Section JudgeExamples.
Import Examples.



Lemma C6_witness :
  let E := service_says "Pass" in
  let image_url := "https://cf.shopee.co.id/file/A" in
  (load_reference_images (env_fs E (world start)) !! "shoes" = None
   \/ load_reference_images (env_fs E (world start)) !! "shoes" = Some [])
  /\ exists st',
      compare_with_reference E image_url "shoes" start = ((NO_REFERENCE, 0%Q), st')
      /\ verdict_of NO_REFERENCE = Error
      /\ world st' = world start
      /\ vision_calls (trace st') = vision_calls (trace start).
Proof.
  intros E image_url.
  assert (Hnone : load_reference_images (env_fs E (world start)) !! "shoes" = None
                  \/ load_reference_images (env_fs E (world start)) !! "shoes"
                     = Some [])
    by (left; vm_compute; reflexivity).
  split; [exact Hnone|].
  exact (C6_no_reference_means_no_service_call E image_url "shoes" start Hnone).
Defined.


(** The batch of the two images [A] and [B] when the service raises on
    [A]: an Error row for [A], and [B] is judged all the same. *)
Example batch_with_a_failure :
  fst (judge_images service_fails_on_A [JString "A"; JString "B"] "bags" start)
  = [ {| image_url := "https://cf.shopee.co.id/file/A";
         classification := "Error"; confidence := 0%Q |};
      {| image_url := "https://cf.shopee.co.id/file/B";
         classification := "Pass"; confidence := 1%Q |} ].
Proof. vm_compute. reflexivity. Qed.

End JudgeExamples.

(** ** The mapping of reference images during a run *)

Section ReferenceMapping.
Context {World : Type} (E : Env World).
Implicit Types st : @State World.

Lemma compare_scans image_url category st :
  scans_of (trace (snd (compare_with_reference E image_url category st)))
  = scans_of (trace st) ++ [load_reference_images (env_fs E (world st))].
Proof.
  destruct (default [] (load_reference_images (env_fs E (world st)) !! category))
    as [|reference rest] eqn:Href.
  - rewrite compare_without_reference by exact Href.
    cbn [snd emit trace]. now rewrite scans_of_app.
  - rewrite (compare_with_first_reference _ _ _ _ reference rest) by exact Href.
    cbn [snd trace]. now rewrite scans_of_app.
Qed.

Lemma compare_world image_url category st :
  world (snd (compare_with_reference E image_url category st)) = world st
  \/ exists reference,
      world (snd (compare_with_reference E image_url category st))
      = snd (env_vision E (world st) reference image_url).
Proof.
  destruct (default [] (load_reference_images (env_fs E (world st)) !! category))
    as [|reference rest] eqn:Href.
  - left. now rewrite compare_without_reference by exact Href.
  - right. exists reference.
    now rewrite (compare_with_first_reference _ _ _ _ reference rest) by exact Href.
Qed.

(** C9 (as amended).  The mapping is not kept from startup: every call of
    the judge walks the reference directory again, once for each image of
    the batch.  The program itself never writes to the directory, so when
    nothing outside changes it while the service is being called, each of
    these walks gives the same mapping, the one of the directory as it was
    when the batch began. *)
Theorem C9_one_scan_for_each_image :
  forall category ids st,
    (forall w reference candidate,
        env_fs E (snd (env_vision E w reference candidate)) = env_fs E w) ->
    let st' := snd (judge_images E ids category st) in
    scans_of (trace st')
    = scans_of (trace st)
        ++ repeat (load_reference_images (env_fs E (world st))) (length ids)
    /\ env_fs E (world st') = env_fs E (world st).
Proof.
  intros category ids st Hstable. cbv zeta. revert st.
  induction ids as [|img_id ids IH]; intros st.
  - cbn. now rewrite app_nil_r.
  - rewrite judge_images_cons. cbv zeta. cbn [snd length repeat].
    set (st1 := snd (compare_with_reference E (cdn_url E img_id) category st)).
    assert (Hfs : env_fs E (world st1) = env_fs E (world st)).
    { subst st1.
      destruct (compare_world (cdn_url E img_id) category st) as [-> | [r ->]];
        [reflexivity | apply Hstable]. }
    destruct (IH st1) as [Hscans Hworld].
    rewrite Hscans, Hworld, Hfs. split; [|reflexivity].
    subst st1. rewrite compare_scans, <- app_assoc. reflexivity.
Qed.

(** Without any assumption on the outside: a batch of [n] images walks the
    reference directory [n] times. *)
Lemma scans_in_a_batch category ids st :
  length (scans_of (trace (snd (judge_images E ids category st))))
  = length (scans_of (trace st)) + length ids.
Proof.
  revert st. induction ids as [|img_id ids IH]; intros st.
  - cbn. lia.
  - rewrite judge_images_cons. cbv zeta. cbn [snd length].
    rewrite IH, compare_scans, length_app. cbn. lia.
Qed.

End ReferenceMapping.

Section ReferenceMappingExamples.
Import Examples.

Lemma C9_witness :
  let E := service_says "Pass" in
  (forall w reference candidate,
      env_fs E (snd (env_vision E w reference candidate)) = env_fs E w)
  /\ (let st' := snd (judge_images E [JString "A"; JString "B"] "bags" start) in
      scans_of (trace st')
      = scans_of (trace start)
          ++ repeat (load_reference_images (env_fs E (world start)))
                    (length [JString "A"; JString "B"])
      /\ env_fs E (world st') = env_fs E (world start)).
Proof.
  intros E.
  assert (Hstable : forall w reference candidate,
             env_fs E (snd (env_vision E w reference candidate)) = env_fs E w)
    by (intros; reflexivity).
  split; [exact Hstable|].
  exact (C9_one_scan_for_each_image E "bags" [JString "A"; JString "B"] start
           Hstable).
Defined.

(** C9 as it is stated fails: in this run the reference image of [bags] is
    removed after the first image has been judged.  The directory is walked
    once for each of the two images, the two walks give different mappings,
    and the second image is turned down for want of a reference although
    the first one was compared with one. *)
Lemma C9_counterexample :
  let run := scrape_shopee_reviews store_changes LISTING_URL "bags" start in
  exists first_mapping second_mapping,
    scans_of (trace (snd run)) = [first_mapping; second_mapping]
    /\ first_mapping !! "bags" = Some ["reference_images/bags/ref.jpg"]
    /\ second_mapping !! "bags" = None
    /\ first_mapping <> second_mapping
    /\ csv_writes (trace (snd run))
       = [[ {| image_url := "https://cf.shopee.co.id/file/A";
               classification := "Pass"; confidence := 1%Q |};
            {| image_url := "https://cf.shopee.co.id/file/B";
               classification := NO_REFERENCE; confidence := 0%Q |} ]].
Proof.
  intros run.
  exists (load_reference_images fs_bags), (load_reference_images fs_empty).
  assert (H1 : load_reference_images fs_bags !! "bags"
               = Some ["reference_images/bags/ref.jpg"])
    by (vm_compute; reflexivity).
  assert (H2 : load_reference_images fs_empty !! "bags" = None)
    by (vm_compute; reflexivity).
  split; [vm_compute; reflexivity|].
  split; [exact H1|]. split; [exact H2|].
  split; [intros Heq; rewrite Heq, H2 in H1; discriminate|].
  vm_compute. reflexivity.
Qed.

End ReferenceMappingExamples.

(** ** Fetching the listing *)

Section Fetch.
Context {World : Type} (E : Env World).
Implicit Types st : @State World.

Lemma scrape_parsed product_url category shop_id item_id st :
  parse_product_url product_url = inr (shop_id, item_id) ->
  scrape_shopee_reviews E product_url category st
  = fetch_listing E shop_id item_id category st.
Proof. intros Hparse. unfold scrape_shopee_reviews. now rewrite Hparse. Qed.

(** C3 (as amended).  The visit of the listing page comes first, inside
    the same [try] as the API request.  Whatever response it gets, of any
    status and with any body, is dropped and the run goes on with the API
    request, whose outcome alone decides the result.  But when the visit
    itself raises, a timeout or any other request exception, that error is
    the result of the run, and the API request is never made. *)
Theorem C3_listing_page_visit :
  forall product_url category shop_id item_id st,
    parse_product_url product_url = inr (shop_id, item_id) ->
    let page := listing_page shop_id item_id in
    let visited := {| world := snd (env_get E (world st) page None);
                      trace := trace st ++ [EvGet page None] |} in
    match fst (env_get E (world st) page None) with
    | Response _ _ =>
        scrape_shopee_reviews E product_url category st
        = fetch_and_check E shop_id item_id category visited
    | RaisesTimeout =>
        scrape_shopee_reviews E product_url category st
        = (Returns (Text ERR_TIMEOUT) None, visited)
    | RaisesRequestException detail =>
        scrape_shopee_reviews E product_url category st
        = (Returns (Text (err_request detail)) None, visited)
    end.
Proof.
  intros product_url category shop_id item_id st Hparse page visited.
  rewrite (scrape_parsed _ _ _ _ _ Hparse).
  unfold fetch_listing, bind, session_get. fold page.
  subst visited.
  destruct (env_get E (world st) page None) as [[status_code json| |detail] w];
    reflexivity.
Qed.

(** The path [data.product_info.images] when a key on it is missing from
    the dict that should hold it: the default, an empty list. *)
Lemma images_of_missing_key product_data :
  (exists items, product_data = JDict items /\ dict_lookup "data" items = None)
  \/ (exists items data,
        product_data = JDict items
        /\ dict_lookup "data" items = Some (JDict data)
        /\ dict_lookup "product_info" data = None)
  \/ (exists items data info,
        product_data = JDict items
        /\ dict_lookup "data" items = Some (JDict data)
        /\ dict_lookup "product_info" data = Some (JDict info)
        /\ dict_lookup "images" info = None) ->
  images_of product_data = inr (JList []).
Proof.
  unfold images_of.
  intros [(items & -> & H1)
         |[(items & data & -> & H1 & H2)
          |(items & data & info & -> & H1 & H2 & H3)]]; cbn; rewrite H1; cbn.
  - reflexivity.
  - now rewrite H2.
  - rewrite H2. cbn. now rewrite H3.
Qed.

(** An empty (or otherwise false) image list ends the run with the message
    of line 142 before anything is judged: the state is untouched, so the
    service has not been called and no row has been written. *)
Lemma no_images_before_judging product_data product_images category st :
  images_of product_data = inr product_images ->
  py_truthy product_images = false ->
  check_images E product_data category st
  = (Returns (Text ERR_NO_IMAGES) None, st).
Proof.
  intros Himages Hfalsy. unfold check_images.
  now rewrite Himages, Hfalsy.
Qed.

(** A value on the path that is there but is not a dict makes the lookup
    raise. *)
Lemma images_of_null_data items :
  dict_lookup "data" items = Some JNull ->
  images_of (JDict items) = inl AttributeError.
Proof. intros H. unfold images_of. cbn. now rewrite H. Qed.

End Fetch.

Section FetchExamples.
Import Examples.

Lemma C3_witness :
  let E := page_forbidden in
  parse_product_url LISTING_URL = inr ("111", "222")
  /\ (let page := listing_page "111" "222" in
      let visited := {| world := snd (env_get E (world start) page None);
                        trace := trace start ++ [EvGet page None] |} in
      match fst (env_get E (world start) page None) with
      | Response _ _ =>
          scrape_shopee_reviews E LISTING_URL "bags" start
          = fetch_and_check E "111" "222" "bags" visited
      | RaisesTimeout =>
          scrape_shopee_reviews E LISTING_URL "bags" start
          = (Returns (Text ERR_TIMEOUT) None, visited)
      | RaisesRequestException detail =>
          scrape_shopee_reviews E LISTING_URL "bags" start
          = (Returns (Text (err_request detail)) None, visited)
      end).
Proof.
  intros E.
  assert (Hparse : parse_product_url LISTING_URL = inr ("111", "222"))
    by (vm_compute; reflexivity).
  split; [exact Hparse|].
  exact (C3_listing_page_visit E LISTING_URL "bags" "111" "222" start Hparse).
Defined.

(** C3 as it is stated fails: here the visit of the listing page raises a
    connection error while the API would have answered with the listing.
    The run ends with that error; the only request made is the visit. *)
Lemma C3_counterexample :
  scrape_shopee_reviews page_unreachable LISTING_URL "bags" start
  = (Returns (Text "Error: Failed to fetch data: connection refused") None,
     {| world := 1;
        trace := [EvGet "https://shopee.co.id/-i.111.222" None] |}).
Proof. vm_compute. reflexivity. Qed.

(** A listing page that answers 403 does not stop the run. *)
Example forbidden_page_is_ignored :
  fst (scrape_shopee_reviews page_forbidden LISTING_URL "bags" start)
  = Returns (Summary 2 2 0) (Some "https://cf.shopee.co.id/file/A").
Proof. vm_compute. reflexivity. Qed.

(** C5: the body [{"error": 90309999, "data": null}], received with status
    200, has no [data.product_info.images].  The run does not end with the
    message for a listing without images: the lookup raises
    [AttributeError], which no handler of the function catches.  (Nothing
    has been judged or written by then.) *)
Lemma C5_null_data_raises :
  scrape_shopee_reviews api_refuses LISTING_URL "bags" start
  = (Raises AttributeError,
     {| world := 2;
        trace := [EvGet "https://shopee.co.id/-i.111.222" None;
                  EvGet "https://shopee.co.id/api/v4/pdp/get_pc?shop_id=111&item_id=222"
                        (Some 10%Z)] |})
  /\ fst (scrape_shopee_reviews api_refuses LISTING_URL "bags" start)
     <> Returns (Text ERR_NO_IMAGES) None.
Proof. split; [vm_compute; reflexivity | vm_compute; discriminate]. Qed.

End FetchExamples.

(** ** The report *)

Section Report.
Context {World : Type} (E : Env World).
Implicit Types st : @State World.

Lemma report_eq rows st :
  report rows st =
  (match rows with
   | first :: _ =>
       Returns (Summary (length rows)
                        (length (filter (fun r => is_pass r = true) rows))
                        (length rows
                           - length (filter (fun r => is_pass r = true) rows)))
               (Some (image_url first))
   | [] => Raises IndexError
   end,
   emit (EvCsv rows) st).
Proof. unfold report, bind, write_csv, ret. now destruct rows. Qed.

Lemma is_pass_verdict r : is_pass r = true <-> verdict_of (classification r) = Pass.
Proof. unfold is_pass. now rewrite verdict_of_Pass, String.eqb_eq. Qed.

Lemma pass_rows (rows : list ResultRow) :
  filter (fun r => is_pass r = true) rows
  = filter (fun r => verdict_of (classification r) = Pass) rows.
Proof. apply list_filter_iff, is_pass_verdict. Qed.

(** The counts never go wrong: there are at most as many Pass rows as
    rows. *)
Lemma pass_count_bound (rows : list ResultRow) :
  length (filter (fun r => verdict_of (classification r) = Pass) rows)
  <= length rows.
Proof. apply length_filter. Qed.

Lemma parse_product_url_failure product_url result :
  parse_product_url product_url = inl result ->
  (exists message, result = Returns (Text message) None)
  \/ result = Raises ValueError.
Proof.
  unfold parse_product_url.
  destruct (_ || _); [intros [= <-]; eauto|].
  destruct (Re.search URL_PATTERN product_url) as [[|a [|b [|c l]]]|];
    intros [= <-]; eauto.
Qed.

(** C7.  When a run ends with a summary, the rows it has written are one
    for each image of the listing, in the order of the list found under
    [data.product_info.images] in the API response.  The summary counts
    all rows, counts as passed exactly the rows whose verdict is Pass (an
    Error row is not one of them), gives the difference of the two as the
    number of counterfeits, and the sample is the CDN URL of the first
    image of the listing. *)
Theorem C7_summary_counts_and_sample :
  forall product_url category st total_images pass_count counterfeit sample st',
    scrape_shopee_reviews E product_url category st
    = (Returns (Summary total_images pass_count counterfeit) sample, st') ->
    exists rows first_id other_ids,
      last (trace st') = Some (EvCsv rows)
      /\ map image_url rows = map (cdn_url E) (first_id :: other_ids)
      /\ total_images = length (first_id :: other_ids)
      /\ total_images = length rows
      /\ pass_count
         = length (filter (fun r => verdict_of (classification r) = Pass) rows)
      /\ counterfeit = total_images - pass_count
      /\ pass_count + counterfeit = total_images
      /\ sample = Some (cdn_url E first_id)
      /\ exists shop_id item_id product_data product_images,
          parse_product_url product_url = inr (shop_id, item_id)
          /\ (let st1 := snd (session_get E (listing_page shop_id item_id) None st) in
              fst (session_get E (api_url shop_id item_id) (Some 10%Z) st1)
              = Response 200 (inr product_data))
          /\ images_of product_data = inr product_images
          /\ py_iter product_images = inr (first_id :: other_ids).
Proof.
  intros product_url category st total_images pass_count counterfeit sample st' Hrun.
  unfold scrape_shopee_reviews in Hrun.
  destruct (parse_product_url product_url) as [result|[shop_id item_id]] eqn:Hparse.
  { apply parse_product_url_failure in Hparse as [[message ->]| ->];
      unfold ret in Hrun; discriminate. }
  unfold fetch_listing, bind in Hrun.
  destruct (session_get E (listing_page shop_id item_id) None st)
    as [page st1] eqn:Hpage.
  destruct page as [page_status page_json| |detail];
    [|unfold ret in Hrun; discriminate..].
  unfold fetch_and_check, bind in Hrun.
  destruct (session_get E (api_url shop_id item_id) (Some 10%Z) st1)
    as [response st2] eqn:Hresponse.
  destruct response as [status_code json| |detail];
    [|unfold ret in Hrun; discriminate..].
  destruct (status_code =? 200)%Z eqn:Hstatus;
    [|unfold ret in Hrun; discriminate].
  apply Z.eqb_eq in Hstatus as ->. cbn [negb] in Hrun.
  destruct json as [detail|product_data]; [unfold ret in Hrun; discriminate|].
  unfold check_images in Hrun.
  destruct (images_of product_data) as [e|product_images] eqn:Himages;
    [unfold ret in Hrun; discriminate|].
  destruct (py_truthy product_images); cbn [negb] in Hrun;
    [|unfold ret in Hrun; discriminate].
  destruct (py_iter product_images) as [e|ids] eqn:Hiter;
    [unfold ret in Hrun; discriminate|].
  unfold bind in Hrun.
  pose proof (judge_images_urls E ids category st2) as Hurls.
  destruct (judge_images E ids category st2) as [rows st3].
  cbn [fst] in Hurls.
  rewrite report_eq in Hrun.
  destruct rows as [|first rows]; [discriminate|].
  destruct ids as [|first_id other_ids]; [discriminate|].
  injection Hrun as <- <- <- <- <-.
  exists (first :: rows), first_id, other_ids.
  assert (Hlen : length (first :: rows) = length (first_id :: other_ids)).
  { rewrite <- (length_map image_url), Hurls. apply length_map. }
  rewrite pass_rows.
  pose proof (pass_count_bound (first :: rows)) as Hbound.
  split; [cbn [emit trace]; apply last_snoc|].
  split; [exact Hurls|].
  split; [exact Hlen|].
  split; [reflexivity|].
  split; [reflexivity|].
  split; [reflexivity|].
  split; [cbn [length] in Hbound; lia|].
  split; [injection Hurls as -> _; reflexivity|].
  exists shop_id, item_id, product_data, product_images.
  rewrite Hpage. cbn [snd]. rewrite Hresponse. auto.
Qed.

End Report.

Section ReportExamples.
Import Examples.

Lemma C7_witness :
  let E := service_passes_A in
  let st' :=
    {| world := 4;
       trace :=
         [EvGet "https://shopee.co.id/-i.111.222" None;
          EvGet "https://shopee.co.id/api/v4/pdp/get_pc?shop_id=111&item_id=222"
                (Some 10%Z);
          EvScan (load_reference_images fs_bags);
          EvVision "reference_images/bags/ref.jpg" "https://cf.shopee.co.id/file/A";
          EvScan (load_reference_images fs_bags);
          EvVision "reference_images/bags/ref.jpg" "https://cf.shopee.co.id/file/B";
          EvCsv [ {| image_url := "https://cf.shopee.co.id/file/A";
                     classification := "Pass"; confidence := 1%Q |};
                  {| image_url := "https://cf.shopee.co.id/file/B";
                     classification := "garbage"; confidence := 0%Q |} ]] |} in
  scrape_shopee_reviews E LISTING_URL "bags" start
  = (Returns (Summary 2 1 1) (Some "https://cf.shopee.co.id/file/A"), st')
  /\ exists rows first_id other_ids,
      last (trace st') = Some (EvCsv rows)
      /\ map image_url rows = map (cdn_url E) (first_id :: other_ids)
      /\ 2 = length (first_id :: other_ids)
      /\ 2 = length rows
      /\ 1 = length (filter (fun r => verdict_of (classification r) = Pass) rows)
      /\ 1 = 2 - 1
      /\ 1 + 1 = 2
      /\ Some "https://cf.shopee.co.id/file/A" = Some (cdn_url E first_id)
      /\ exists shop_id item_id product_data product_images,
          parse_product_url LISTING_URL = inr (shop_id, item_id)
          /\ (let st1 := snd (session_get E (listing_page shop_id item_id) None
                                start) in
              fst (session_get E (api_url shop_id item_id) (Some 10%Z) st1)
              = Response 200 (inr product_data))
          /\ images_of product_data = inr product_images
          /\ py_iter product_images = inr (first_id :: other_ids).
Proof.
  intros E st'.
  assert (Hrun : scrape_shopee_reviews E LISTING_URL "bags" start
                 = (Returns (Summary 2 1 1)
                            (Some "https://cf.shopee.co.id/file/A"), st'))
    by (vm_compute; reflexivity).
  split; [exact Hrun|].
  exact (C7_summary_counts_and_sample E LISTING_URL "bags" start 2 1 1
           (Some "https://cf.shopee.co.id/file/A") st' Hrun).
Defined.

End ReportExamples.

Section LoaderExamples.
Import Examples.

Lemma C8_witness :
  os_listdir fs_empty REFERENCE_IMAGES_DIR = []
  /\ load_reference_images fs_empty = ∅
  /\ (exists images,
        load_reference_images fs_mixed = {[ "bags" := images ]}
        /\ size (load_reference_images fs_mixed) = 1
        /\ length images = 2
        /\ images ≡ₚ ["reference_images/bags/front.jpg";
                      "reference_images/bags/back.jpg"])
  /\ (is_image_file "Front.JPeG" = true <->
      exists stem ext,
        "Front.JPeG" = stem +:+ ext /\
        (PyStr.lower ext = ".png" \/ PyStr.lower ext = ".jpg"
         \/ PyStr.lower ext = ".jpeg"))
  /\ load_reference_images fs_no_image !! "bags" = Some []
  /\ (exists stem ext,
        "Front.JPeG" = stem +:+ ext /\
        (written_ignoring_case ext ".png" = true
         \/ written_ignoring_case ext ".jpg" = true
         \/ written_ignoring_case ext ".jpeg" = true))
  /\ is_image_file "Front.JPeG" = true
  /\ is_image_file "scan.PNG" = true
  /\ is_image_file "photo.jpgx" = false.
Proof.
  pose proof C8_load_reference_images_contract
    as (Hempty & Hmixed & Hext & Hkept & Hcase).
  assert (Hroot : os_listdir fs_empty REFERENCE_IMAGES_DIR = []) by reflexivity.
  assert (Hjpeg : exists stem ext,
             "Front.JPeG" = stem +:+ ext /\
             (written_ignoring_case ext ".png" = true
              \/ written_ignoring_case ext ".jpg" = true
              \/ written_ignoring_case ext ".jpeg" = true)).
  { exists "Front", ".JPeG". split; [reflexivity|]. right. right. reflexivity. }
  assert (Hpng : exists stem ext,
             "scan.PNG" = stem +:+ ext /\
             (written_ignoring_case ext ".png" = true
              \/ written_ignoring_case ext ".jpg" = true
              \/ written_ignoring_case ext ".jpeg" = true)).
  { exists "scan", ".PNG". split; [reflexivity|]. left. reflexivity. }
  split; [exact Hroot|]. split; [exact (Hempty fs_empty Hroot)|].
  split; [|split; [exact (Hext "Front.JPeG")|split; [|split; [exact Hjpeg|]]]].
  - assert (Hfiles : ["front.jpg"; "notes.txt"; "back.jpg"]
                     ≡ₚ ["front.jpg"; "back.jpg"; "notes.txt"])
      by (apply perm_skip, perm_swap).
    exact (Hmixed fs_mixed "bags" "front" "back" "notes"
             eq_refl eq_refl Hfiles).
  - assert (Hin : "bags" ∈ os_listdir fs_no_image REFERENCE_IMAGES_DIR)
      by (apply list_elem_of_In; now left).
    assert (Hnone : forall f,
               f ∈ os_listdir fs_no_image
                     (os_path_join REFERENCE_IMAGES_DIR "bags") ->
               is_image_file f = false).
    { intros f Hf. apply list_elem_of_In in Hf as [<-|[]]. reflexivity. }
    exact (Hkept fs_no_image "bags" Hin eq_refl Hnone).
  - split; [exact (proj2 (Hcase "Front.JPeG") Hjpeg)|].
    split; [exact (proj2 (Hcase "scan.PNG") Hpng)|].
    reflexivity.
Defined.

End LoaderExamples.

(** ** The listing URL *)

Section Digits.
Import PyStr.

Lemma take_drop_digits s : take_digits s ++ drop_digits s = s.
Proof.
  induction s as [|c s IH]; [reflexivity|]. cbn.
  destruct (isdigit c); cbn; [now rewrite IH | reflexivity].
Qed.

Lemma take_digits_Forall s : Forall (fun c => isdigit c = true) (take_digits s).
Proof.
  induction s as [|c s IH]; cbn; [constructor|].
  destruct (isdigit c) eqn:Hc; [now constructor | constructor].
Qed.

Lemma drop_digits_head s :
  match drop_digits s with
  | c :: _ => isdigit c = false
  | [] => True
  end.
Proof.
  induction s as [|c s IH]; cbn; [exact I|].
  destruct (isdigit c) eqn:Hc; [exact IH | exact Hc].
Qed.

Lemma take_digits_app d rest :
  Forall (fun c => isdigit c = true) d ->
  take_digits (d ++ rest) = d ++ take_digits rest.
Proof.
  induction 1 as [|c d Hc _ IH]; [reflexivity|].
  cbn. now rewrite Hc, IH.
Qed.

Lemma drop_digits_app d rest :
  Forall (fun c => isdigit c = true) d ->
  drop_digits (d ++ rest) = drop_digits rest.
Proof.
  induction 1 as [|c d Hc _ IH]; [reflexivity|].
  cbn. now rewrite Hc, IH.
Qed.

Lemma take_digits_nil s : take_digits s = [] -> drop_digits s = s.
Proof. intros H. rewrite <- (take_drop_digits s) at 2. now rewrite H. Qed.

Lemma take_length_digits s :
  take (length s - length (drop_digits s)) s = take_digits s.
Proof.
  rewrite <- (take_drop_digits s) at 1 3.
  rewrite length_app.
  replace (length (take_digits s) + length (drop_digits s)
           - length (drop_digits s)) with (length (take_digits s)) by lia.
  now rewrite take_app_length.
Qed.

End Digits.

Section Pattern.
Import PyStr Re.

(** The greedy [\d+]: when the rest of the pattern cannot succeed after a
    shorter run once it has failed after the longest one, the run taken is
    the longest one. *)
Lemma match_plus_digits {A} (k : list ascii -> option A) s :
  (forall s', take_digits s' <> [] -> k (drop_digits s') = None -> k s' = None) ->
  match_plus Digit s k =
  match take_digits s with
  | [] => None
  | _ :: _ => k (drop_digits s)
  end.
Proof.
  intros Hk. induction s as [|c s IH]; [reflexivity|].
  cbn. destruct (isdigit c) eqn:Hc; [|reflexivity].
  rewrite IH. destruct (take_digits s) as [|d ds] eqn:Hrun.
  - cbn. now rewrite (take_digits_nil s Hrun).
  - destruct (k (drop_digits s)) eqn:Hlong; [reflexivity|].
    cbn. apply Hk; [now rewrite Hrun | exact Hlong].
Qed.

Lemma match_start_url_pattern s :
  match_start URL_PATTERN s =
  match segment_here s with
  | Some (shop_id, item_id) => Some [str shop_id; str item_id]
  | None => None
  end.
Proof.
  unfold match_start, URL_PATTERN, segment_here.
  destruct s as [|c1 [|c2 s1]]; cbn [match_here atom_matches].
  - reflexivity.
  - now destruct (Ascii.eqb "i" c1).
  - destruct (Ascii.eqb "i" c1); [|reflexivity].
    destruct (Ascii.eqb "." c2); [|reflexivity]. cbn [andb].
    rewrite match_plus_digits.
    + destruct (take_digits s1) as [|d ds] eqn:Hrun1; [reflexivity|].
      rewrite take_length_digits, Hrun1.
      destruct (drop_digits s1) as [|c3 s2]; [reflexivity|].
      destruct (Ascii.eqb "." c3); [|reflexivity].
      rewrite match_plus_digits by (intros; discriminate).
      destruct (take_digits s2) as [|e es] eqn:Hrun2; [reflexivity|].
      now rewrite take_length_digits, Hrun2.
    + intros s' Hrun _. destruct s' as [|c s']; [now cbn in Hrun|].
      cbn in Hrun. destruct (isdigit c) eqn:Hc; [|contradiction].
      destruct (Ascii.eqb_spec "." c) as [<-|]; [discriminate Hc | reflexivity].
Qed.

End Pattern.

Section Search.
Import PyStr PyStrFacts Re.

(** [re.search] finds the first position from the left at which the
    pattern matches, and nothing if there is none. *)
Lemma search_chars_leftmost r s :
  match search_chars r s with
  | Some groups =>
      exists pre suf,
        s = pre ++ suf /\ match_start r suf = Some groups
        /\ forall pre' suf',
            s = pre' ++ suf' -> length pre' < length pre ->
            match_start r suf' = None
  | None => forall pre suf, s = pre ++ suf -> match_start r suf = None
  end.
Proof.
  induction s as [|c s IH].
  - change (search_chars r [])
      with (match match_start r [] with Some g => Some g | None => None end).
    destruct (match_start r []) as [groups|] eqn:Hhere.
    + exists [], []. split; [reflexivity|]. split; [exact Hhere|].
      intros pre' suf' _ Hlt. cbn in Hlt. lia.
    + intros pre suf Heq. symmetry in Heq.
      apply app_eq_nil in Heq as [_ ->]. exact Hhere.
  - change (search_chars r (c :: s))
      with (match match_start r (c :: s) with
            | Some g => Some g
            | None => search_chars r s
            end).
    destruct (match_start r (c :: s)) as [groups|] eqn:Hhere.
    + exists [], (c :: s). split; [reflexivity|]. split; [exact Hhere|].
      intros pre' suf' _ Hlt. cbn in Hlt. lia.
    + destruct (search_chars r s) as [groups|].
      * destruct IH as (pre & suf & -> & Hmatch & Hleft).
        exists (c :: pre), suf. split; [reflexivity|]. split; [exact Hmatch|].
        intros [|c' pre'] suf' Heq Hlt.
        -- cbn in Heq. subst suf'. exact Hhere.
        -- injection Heq as <- Heq. apply (Hleft pre' suf' Heq).
           cbn in Hlt. lia.
      * intros [|c' pre] suf Heq.
        -- cbn in Heq. subst suf. exact Hhere.
        -- injection Heq as <- Heq. exact (IH pre suf Heq).
Qed.

Lemma chars_length s : length (chars s) = String.length s.
Proof. induction s as [|c s IH]; cbn; [reflexivity | f_equal; exact IH]. Qed.

Lemma chars_nil s : chars s = [] <-> s = "".
Proof. destruct s; cbn; split; (reflexivity || discriminate). Qed.

Lemma digits_chars d :
  d <> [] -> Forall (fun c => isdigit c = true) d -> digits (str d).
Proof.
  intros Hne Hall. split; [|now rewrite chars_str].
  intros Heq. apply Hne. rewrite <- (chars_str d), Heq. reflexivity.
Qed.

(** The characters of a text that holds a segment. *)
Lemma segment_chars url before shop_id item_id after :
  url = before +:+ "i." +:+ shop_id +:+ "." +:+ item_id +:+ after ->
  chars url =
  chars before
    ++ "i"%char :: "."%char
    :: chars shop_id ++ "."%char :: chars item_id ++ chars after.
Proof. intros ->. now rewrite !chars_app. Qed.

(** A segment read at the start of a text is a segment of the text, taken
    whole. *)
Lemma segment_here_sound s shop_id item_id :
  segment_here s = Some (shop_id, item_id) ->
  exists rest,
    s = "i"%char :: "."%char :: shop_id ++ "."%char :: item_id ++ rest
    /\ shop_id <> [] /\ Forall (fun c => isdigit c = true) shop_id
    /\ item_id <> [] /\ Forall (fun c => isdigit c = true) item_id
    /\ match rest with
       | c :: _ => isdigit c = false
       | [] => True
       end.
Proof.
  unfold segment_here.
  destruct s as [|c1 [|c2 s1]]; try discriminate.
  destruct (Ascii.eqb_spec "i" c1) as [<-|]; [|discriminate].
  destruct (Ascii.eqb_spec "." c2) as [<-|]; [|discriminate]. cbn [andb].
  destruct (take_digits s1) as [|d ds] eqn:Hrun1; [discriminate|].
  destruct (drop_digits s1) as [|c3 s2] eqn:Hrest1; [discriminate|].
  destruct (Ascii.eqb_spec "." c3) as [<-|]; [|discriminate].
  destruct (take_digits s2) as [|e es] eqn:Hrun2; [discriminate|].
  intros [= <- <-]. exists (drop_digits s2).
  split; [|split; [discriminate|split; [|split; [discriminate|split]]]].
  - rewrite <- Hrun2, take_drop_digits, <- Hrest1, <- Hrun1.
    now rewrite take_drop_digits.
  - rewrite <- Hrun1. apply take_digits_Forall.
  - rewrite <- Hrun2. apply take_digits_Forall.
  - apply drop_digits_head.
Qed.

(** Where a text has a segment, reading one at that place succeeds: it
    gives the same shop id, and the item id with the digits that may
    follow it. *)
Lemma segment_here_complete shop_id item_id rest :
  shop_id <> [] -> Forall (fun c => isdigit c = true) shop_id ->
  item_id <> [] -> Forall (fun c => isdigit c = true) item_id ->
  segment_here ("i"%char :: "."%char :: shop_id ++ "."%char :: item_id ++ rest)
  = Some (shop_id, item_id ++ take_digits rest).
Proof.
  intros Hs Hsd Hi Hid. unfold segment_here. cbn [Ascii.eqb andb].
  change (Ascii.eqb "i" "i" && Ascii.eqb "." ".") with true. cbv iota.
  rewrite take_digits_app, drop_digits_app by assumption.
  change (take_digits ("."%char :: item_id ++ rest)) with (@nil ascii).
  change (drop_digits ("."%char :: item_id ++ rest))
    with ("."%char :: item_id ++ rest).
  rewrite app_nil_r.
  destruct shop_id as [|d ds]; [contradiction|].
  change (Ascii.eqb "." ".") with true. cbv iota.
  rewrite take_digits_app by assumption.
  destruct item_id as [|e es]; [contradiction|]. reflexivity.
Qed.

End Search.

Section ListingUrl.
Import PyStr PyStrFacts Re.

Lemma segment_matches url before shop_id item_id after :
  segment_at url before shop_id item_id after ->
  exists suf groups,
    chars url = chars before ++ suf
    /\ match_start URL_PATTERN suf = Some groups.
Proof.
  intros (Hurl & [Hs Hsd] & [Hi Hid]).
  exists ("i"%char :: "."%char
          :: chars shop_id ++ "."%char :: chars item_id ++ chars after).
  eexists. split; [now apply segment_chars|].
  rewrite match_start_url_pattern, segment_here_complete;
    [reflexivity | | assumption | | assumption].
  - intros Hnil. now apply chars_nil in Hnil.
  - intros Hnil. now apply chars_nil in Hnil.
Qed.

(** What [re.search] finds in a URL: the segment that starts first, taken
    whole; or nothing, when the URL has no segment. *)
Lemma search_url_pattern url :
  match Re.search URL_PATTERN url with
  | Some groups =>
      exists before shop_id item_id after,
        groups = [shop_id; item_id]
        /\ whole_segment_at url before shop_id item_id after
        /\ forall before' shop_id' item_id' after',
            segment_at url before' shop_id' item_id' after' ->
            String.length before <= String.length before'
  | None => ~ has_segment url
  end.
Proof.
  unfold search.
  pose proof (search_chars_leftmost URL_PATTERN (chars url)) as Hsearch.
  destruct (search_chars URL_PATTERN (chars url)) as [groups|].
  - destruct Hsearch as (pre & suf & Hurl & Hmatch & Hleft).
    rewrite match_start_url_pattern in Hmatch.
    destruct (segment_here suf) as [[shop_id item_id]|] eqn:Hseg;
      [|discriminate].
    injection Hmatch as <-.
    apply segment_here_sound in Hseg
      as (rest & -> & Hs & Hsd & Hi & Hid & Hrest).
    exists (str pre), (str shop_id), (str item_id), (str rest).
    split; [reflexivity|]. split; [split; [split; [|split]|]|].
    + apply chars_inj. now rewrite !chars_app, !chars_str, Hurl.
    + now apply digits_chars.
    + now apply digits_chars.
    + now rewrite chars_str.
    + intros before' shop_id' item_id' after' Hother.
      destruct (Nat.le_gt_cases (String.length (str pre)) (String.length before'))
        as [Hle|Hgt]; [exact Hle|].
      apply segment_matches in Hother as (suf' & groups' & Hurl' & Hmatch').
      rewrite (Hleft (chars before') suf' Hurl') in Hmatch'; [discriminate|].
      rewrite chars_length.
      now rewrite <- (chars_length (str pre)), chars_str in Hgt.
  - intros (before & shop_id & item_id & after & Hseg).
    apply segment_matches in Hseg as (suf & groups & Hurl & Hmatch).
    rewrite (Hsearch _ _ Hurl) in Hmatch. discriminate.
Qed.

Lemma lstrip_chars_nil l :
  lstrip_chars l = [] -> Forall (fun c => isspace c = true) l.
Proof.
  induction l as [|c l IH]; cbn; [constructor|].
  destruct (isspace c) eqn:Hc; [|discriminate].
  intros H. constructor; auto.
Qed.

Lemma lstrip_chars_head l :
  match lstrip_chars l with
  | c :: _ => isspace c = false
  | [] => True
  end.
Proof.
  induction l as [|c l IH]; cbn; [exact I|].
  destruct (isspace c) eqn:Hc; [exact IH | exact Hc].
Qed.

(** Only a text made of white space is stripped down to nothing. *)
Lemma strip_empty s :
  strip s = "" -> Forall (fun c => isspace c = true) (chars s).
Proof.
  unfold strip. intros Hempty.
  assert (Hrev : rev (lstrip_chars (rev (lstrip_chars (chars s)))) = []).
  { rewrite <- (chars_str (rev _)), Hempty. reflexivity. }
  apply (f_equal (@rev ascii)) in Hrev. rewrite rev_involutive in Hrev.
  cbn in Hrev. apply lstrip_chars_nil in Hrev.
  pose proof (lstrip_chars_head (chars s)) as Hhead.
  destruct (lstrip_chars (chars s)) as [|c l] eqn:Hleft.
  - now apply lstrip_chars_nil.
  - exfalso. rewrite Forall_forall in Hrev.
    rewrite (Hrev c) in Hhead; [discriminate|].
    apply list_elem_of_In, in_rev. rewrite rev_involutive. now left.
Qed.

Lemma segment_not_blank url :
  has_segment url -> falsy url || falsy (strip url) = false.
Proof.
  intros (before & shop_id & item_id & after & Hurl & _).
  apply segment_chars in Hurl.
  assert (Hin : In "i"%char (chars url)).
  { rewrite Hurl. apply in_or_app. right. now left. }
  apply orb_false_iff. split.
  - apply not_true_is_false. intros Hf. apply falsy_spec in Hf.
    subst url. destruct Hin.
  - apply not_true_is_false. intros Hf. apply falsy_spec, strip_empty in Hf.
    rewrite Forall_forall in Hf.
    specialize (Hf "i"%char (proj2 (list_elem_of_In _ _) Hin)). discriminate.
Qed.

(** C4.  A URL that holds a segment [i.<digits>.<digits>] is parsed into
    the pair of digit texts of such a segment of the URL, each taken whole;
    every other URL, the empty and the blank one among them, is turned down
    with one of the two messages for an invalid URL. *)
Theorem C4_parse_product_url :
  forall product_url,
    (has_segment product_url ->
     exists before shop_id item_id after,
       parse_product_url product_url = inr (shop_id, item_id)
       /\ whole_segment_at product_url before shop_id item_id after)
    /\ (~ has_segment product_url ->
        exists result,
          parse_product_url product_url = inl result /\ is_InvalidUrl result).
Proof.
  intros product_url.
  pose proof (search_url_pattern product_url) as Hsearch.
  unfold parse_product_url. split.
  - intros Hseg. rewrite (segment_not_blank _ Hseg).
    destruct (Re.search URL_PATTERN product_url) as [groups|];
      [|contradiction].
    destruct Hsearch as (before & shop_id & item_id & after & -> & Hwhole & _).
    exists before, shop_id, item_id, after. split; [reflexivity | exact Hwhole].
  - intros Hnone.
    destruct (falsy product_url || falsy (strip product_url)).
    + eexists. split; [reflexivity | now left].
    + destruct (Re.search URL_PATTERN product_url) as [groups|].
      * destruct Hsearch as (before & shop_id & item_id & after & _ & [Hseg _] & _).
        exfalso. apply Hnone. now exists before, shop_id, item_id, after.
      * eexists. split; [reflexivity | now right].
Qed.

(** C10.  In a URL that holds one or several segments, the pair returned is
    that of the segment which starts first: no segment of the URL starts
    before it. *)
Theorem C10_leftmost_segment_wins :
  forall product_url,
    has_segment product_url ->
    exists before shop_id item_id after,
      parse_product_url product_url = inr (shop_id, item_id)
      /\ whole_segment_at product_url before shop_id item_id after
      /\ forall before' shop_id' item_id' after',
          segment_at product_url before' shop_id' item_id' after' ->
          String.length before <= String.length before'.
Proof.
  intros product_url Hseg.
  pose proof (search_url_pattern product_url) as Hsearch.
  unfold parse_product_url. rewrite (segment_not_blank _ Hseg).
  destruct (Re.search URL_PATTERN product_url) as [groups|]; [|contradiction].
  destruct Hsearch as (before & shop_id & item_id & after & -> & Hwhole & Hleft).
  exists before, shop_id, item_id, after. auto.
Qed.

End ListingUrl.

Section ListingUrlExamples.

Lemma C4_witness :
  has_segment "https://shopee.co.id/tas-i.111.222?sp=1"
  /\ ~ has_segment "   "
  /\ (exists before shop_id item_id after,
        parse_product_url "https://shopee.co.id/tas-i.111.222?sp=1"
        = inr (shop_id, item_id)
        /\ whole_segment_at "https://shopee.co.id/tas-i.111.222?sp=1"
             before shop_id item_id after)
  /\ (exists result,
        parse_product_url "   " = inl result /\ is_InvalidUrl result).
Proof.
  assert (Hyes : has_segment "https://shopee.co.id/tas-i.111.222?sp=1").
  { exists "https://shopee.co.id/tas-", "111", "222", "?sp=1".
    split; [reflexivity|].
    split; (split; [discriminate | repeat constructor]). }
  assert (Hno : ~ has_segment "   ") by exact (search_url_pattern "   ").
  split; [exact Hyes|]. split; [exact Hno|]. split.
  - exact (proj1 (C4_parse_product_url _) Hyes).
  - exact (proj2 (C4_parse_product_url _) Hno).
Defined.

Lemma C10_witness :
  has_segment "https://shopee.co.id/a-i.1.2?next=i.3.4"
  /\ exists before shop_id item_id after,
      parse_product_url "https://shopee.co.id/a-i.1.2?next=i.3.4"
      = inr (shop_id, item_id)
      /\ whole_segment_at "https://shopee.co.id/a-i.1.2?next=i.3.4"
           before shop_id item_id after
      /\ forall before' shop_id' item_id' after',
          segment_at "https://shopee.co.id/a-i.1.2?next=i.3.4"
            before' shop_id' item_id' after' ->
          String.length before <= String.length before'.
Proof.
  assert (Hseg : has_segment "https://shopee.co.id/a-i.1.2?next=i.3.4").
  { exists "https://shopee.co.id/a-i.1.2?next=", "3", "4", "".
    split; [reflexivity|].
    split; (split; [discriminate | repeat constructor]). }
  split; [exact Hseg|].
  exact (C10_leftmost_segment_wins _ Hseg).
Defined.

(** Of two segments the first is returned; a second dot-separated run of
    digits after the item id is left out; an empty, a blank and a
    segment-free URL are turned down. *)
Example parse_examples :
  parse_product_url "https://shopee.co.id/a-i.1.2?next=i.3.4" = inr ("1", "2")
  /\ parse_product_url "https://example.co.id/-i.111.222.333" = inr ("111", "222")
  /\ parse_product_url "https://example.co.id/-i.111.x/i.3.45" = inr ("3", "45")
  /\ parse_product_url "" = inl (Returns (Text ERR_URL_REQUIRED) None)
  /\ parse_product_url "   " = inl (Returns (Text ERR_URL_REQUIRED) None)
  /\ parse_product_url "https://shopee.co.id/i.12" =
     inl (Returns (Text ERR_INVALID_URL) None).
Proof. repeat split; vm_compute; reflexivity. Qed.

End ListingUrlExamples.

(** * Further properties *)

(** ** The reference directory and the dropdown *)

Section LoaderEntries.

(** X1.  The mapping has an entry exactly for the names listed in the
    reference directory that are directories; the entry of a category is
    its image files, in the order of the listing, each joined to the path
    of the category. *)
Theorem X1_load_reference_images_entries :
  forall fs category,
    let category_path := os_path_join REFERENCE_IMAGES_DIR category in
    load_reference_images fs !! category =
    if decide (category ∈ os_listdir fs REFERENCE_IMAGES_DIR
               /\ os_path_isdir fs category_path = true)
    then Some (map (os_path_join category_path)
                   (filter (fun f => is_image_file f = true)
                           (os_listdir fs category_path)))
    else None.
Proof.
  intros fs category category_path. subst category_path.
  rewrite load_reference_images_lookup.
  destruct (decide _); [|reflexivity].
  now rewrite category_images_filter.
Qed.

(** X2.  The categories offered in the dropdown are exactly the keys of the
    mapping that the judge looks the category up in. *)
Theorem X2_categories_are_the_keys :
  forall fs category,
    category ∈ categories fs <-> is_Some (load_reference_images fs !! category).
Proof.
  intros fs category. unfold categories.
  rewrite list_elem_of_filter, load_reference_images_lookup.
  destruct (decide _) as [Hyes|Hno].
  - split; [eauto | tauto].
  - split; [tauto | intros [x Hx]; discriminate].
Qed.

End LoaderEntries.

(** ** The judge, whatever the service does *)

Section JudgeAlways.
Context {World : Type} (E : Env World).
Implicit Types st : @State World.

Lemma requests_of_app t1 t2 :
  requests_of (t1 ++ t2) = requests_of t1 ++ requests_of t2.
Proof. apply omap_app. Qed.

Lemma judged_agrees image_url category st :
  row_agrees (fst (fst (compare_with_reference E image_url category st)))
             (snd (fst (compare_with_reference E image_url category st))).
Proof.
  destruct (default [] (load_reference_images (env_fs E (world st)) !! category))
    as [|reference rest] eqn:Href.
  - rewrite compare_without_reference by exact Href.
    right. split; [discriminate | reflexivity].
  - rewrite (compare_with_first_reference _ _ _ _ reference rest) by exact Href.
    cbn [fst].
    destruct (fst (env_vision E (world st) reference image_url))
      as [[content|]|]; cbn [fst snd];
      try (right; split; [discriminate | reflexivity]).
    destruct (String.eqb_spec (PyStr.strip content) "Pass") as [Heq|Hne].
    + left. now split.
    + right. now split.
Qed.

Lemma judge_images_agree ids category st :
  Forall (fun r => row_agrees (classification r) (confidence r))
         (fst (judge_images E ids category st)).
Proof.
  revert st. induction ids as [|img_id ids IH]; intros st; [constructor|].
  rewrite judge_images_cons. cbv zeta. cbn [fst].
  constructor; [apply judged_agrees | apply IH].
Qed.

(** X3.  Whatever happens in a call of the judge (no reference, an answer
    of any text, no content, an exception), the confidence it returns
    agrees with the classification it returns: it is 1 when that is
    ["Pass"] and 0 otherwise, and never anything else. *)
Theorem X3_confidence_agrees_with_classification :
  forall image_url category st,
    let judged := fst (compare_with_reference E image_url category st) in
    (fst judged = "Pass" <-> snd judged = 1%Q)
    /\ (fst judged <> "Pass" <-> snd judged = 0%Q).
Proof.
  intros image_url category st judged.
  destruct (judged_agrees image_url category st) as [[Hc Hq]|[Hc Hq]];
    fold judged in Hc, Hq; rewrite Hq.
  - split; split.
    + reflexivity.
    + intros _. exact Hc.
    + intros Hne. contradiction.
    + discriminate.
  - split; split.
    + intros Heq. contradiction.
    + discriminate.
    + reflexivity.
    + intros _. exact Hc.
Qed.

(** X4.  A call of the judge calls the service at most once: not at all
    when the category has no reference image, and otherwise once, with the
    first reference image of the category and the candidate.  It makes no
    request and writes no file. *)
Theorem X4_one_service_call_with_the_first_reference :
  forall image_url category st,
    let st' := snd (compare_with_reference E image_url category st) in
    vision_calls (trace st')
    = vision_calls (trace st)
        ++ match default []
                   (load_reference_images (env_fs E (world st)) !! category) with
           | [] => []
           | reference :: _ => [(reference, image_url)]
           end
    /\ requests_of (trace st') = requests_of (trace st)
    /\ csv_writes (trace st') = csv_writes (trace st).
Proof.
  intros image_url category st. cbv zeta.
  destruct (default [] (load_reference_images (env_fs E (world st)) !! category))
    as [|reference rest] eqn:Href.
  - rewrite compare_without_reference by exact Href. cbn [snd emit trace].
    rewrite vision_calls_app, requests_of_app, csv_writes_app. cbn.
    now rewrite !app_nil_r.
  - rewrite (compare_with_first_reference _ _ _ _ reference rest) by exact Href.
    cbn [snd trace].
    rewrite vision_calls_app, requests_of_app, csv_writes_app. cbn.
    now rewrite !app_nil_r.
Qed.

(** What a batch adds to the trace: a walk of the directory for each
    image, at most one service call for each image, and nothing else. *)
Lemma judge_images_trace ids category st :
  exists added,
    trace (snd (judge_images E ids category st)) = trace st ++ added
    /\ length (scans_of added) = length ids
    /\ length (vision_calls added) <= length ids
    /\ requests_of added = []
    /\ csv_writes added = [].
Proof.
  revert st. induction ids as [|img_id ids IH]; intros st.
  - exists []. cbn. now rewrite app_nil_r.
  - rewrite judge_images_cons. cbv zeta. cbn [snd].
    set (st1 := snd (compare_with_reference E (cdn_url E img_id) category st)).
    destruct (IH st1) as (added & -> & Hscans & Hcalls & Hreq & Hcsv).
    assert (Hstep : exists step,
               trace st1 = trace st ++ step
               /\ length (scans_of step) = 1
               /\ length (vision_calls step) <= 1
               /\ requests_of step = [] /\ csv_writes step = []).
    { subst st1.
      destruct (default [] (load_reference_images (env_fs E (world st))
                              !! category)) as [|reference rest] eqn:Href.
      - rewrite compare_without_reference by exact Href.
        eexists. split; [reflexivity|]. cbn. auto.
      - rewrite (compare_with_first_reference _ _ _ _ reference rest)
          by exact Href.
        eexists. split; [reflexivity|]. cbn. auto. }
    destruct Hstep as (step & -> & Hs1 & Hs2 & Hs3 & Hs4).
    exists (step ++ added). rewrite <- app_assoc. split; [reflexivity|].
    rewrite scans_of_app, vision_calls_app, requests_of_app, csv_writes_app.
    rewrite !length_app, Hs3, Hs4, Hreq, Hcsv. cbn [length]. repeat split; lia.
Qed.

(** X5.  The loop over the images of a listing gives one row for each
    image, in the order of the listing, with the CDN URL of the image.  It
    calls the service at most once for each image, makes no request and
    writes no file. *)
Theorem X5_one_row_for_each_image :
  forall ids category st,
    let rows := fst (judge_images E ids category st) in
    let st' := snd (judge_images E ids category st) in
    map image_url rows = map (cdn_url E) ids
    /\ length rows = length ids
    /\ length (vision_calls (trace st'))
       <= length (vision_calls (trace st)) + length ids
    /\ requests_of (trace st') = requests_of (trace st)
    /\ csv_writes (trace st') = csv_writes (trace st).
Proof.
  intros ids category st. cbv zeta.
  pose proof (judge_images_urls E ids category st) as Hurls.
  split; [exact Hurls|]. split.
  - rewrite <- (length_map image_url), Hurls. apply length_map.
  - destruct (judge_images_trace ids category st)
      as (added & -> & _ & Hcalls & Hreq & Hcsv).
    rewrite vision_calls_app, requests_of_app, csv_writes_app, length_app.
    rewrite Hreq, Hcsv, !app_nil_r. repeat split. lia.
Qed.

End JudgeAlways.

(** ** A run, stage by stage *)

Section RunStages.
Context {World : Type} (E : Env World).
Implicit Types st : @State World.

Lemma check_images_eq product_data category st :
  check_images E product_data category st =
  match images_of product_data with
  | inl e => (Raises e, st)
  | inr product_images =>
      if py_truthy product_images
      then match py_iter product_images with
           | inl e => (Raises e, st)
           | inr ids =>
               report (fst (judge_images E ids category st))
                      (snd (judge_images E ids category st))
           end
      else (Returns (Text ERR_NO_IMAGES) None, st)
  end.
Proof.
  unfold check_images.
  destruct (images_of product_data) as [e|product_images]; [reflexivity|].
  destruct (py_truthy product_images); [|reflexivity]. cbn [negb].
  destruct (py_iter product_images) as [e|ids]; [reflexivity|].
  unfold bind. now destruct (judge_images E ids category st).
Qed.

Lemma scrape_eq product_url category st :
  scrape_shopee_reviews E product_url category st =
  match parse_product_url product_url with
  | inl failure => (failure, st)
  | inr (shop_id, item_id) =>
      let page := listing_page shop_id item_id in
      let api := api_url shop_id item_id in
      let st1 := after_get E page None st in
      let st2 := after_get E api (Some 10%Z) st1 in
      match fst (env_get E (world st) page None) with
      | RaisesTimeout => (Returns (Text ERR_TIMEOUT) None, st1)
      | RaisesRequestException detail =>
          (Returns (Text (err_request detail)) None, st1)
      | Response _ _ =>
          match fst (env_get E (world st1) api (Some 10%Z)) with
          | RaisesTimeout => (Returns (Text ERR_TIMEOUT) None, st2)
          | RaisesRequestException detail =>
              (Returns (Text (err_request detail)) None, st2)
          | Response status_code json =>
              if (status_code =? 200)%Z
              then match json with
                   | inl detail => (Returns (Text (err_request detail)) None, st2)
                   | inr product_data => check_images E product_data category st2
                   end
              else (Returns (Text (err_http status_code)) None, st2)
          end
      end
  end.
Proof.
  unfold scrape_shopee_reviews.
  destruct (parse_product_url product_url) as [failure|[shop_id item_id]];
    [reflexivity|].
  cbv zeta. unfold fetch_listing, bind, session_get, after_get.
  destruct (env_get E (world st) (listing_page shop_id item_id) None)
    as [[page_status page_json| |detail] w1]; try reflexivity.
  cbn [fst snd world trace].
  unfold fetch_and_check, bind, session_get. cbn [world trace].
  destruct (env_get E w1 (api_url shop_id item_id) (Some 10%Z))
    as [[status_code json| |detail] w2]; try reflexivity.
  cbn [fst snd]. destruct (status_code =? 200)%Z; [|reflexivity].
  cbn [negb]. now destruct json.
Qed.

(** The pattern has two groups: unpacking [match.groups()] cannot fail. *)
Lemma parse_product_url_failure_is_a_message product_url failure :
  parse_product_url product_url = inl failure -> is_InvalidUrl failure.
Proof.
  pose proof (search_url_pattern product_url) as Hsearch.
  unfold parse_product_url.
  destruct (_ || _); [intros [= <-]; now left|].
  destruct (Re.search URL_PATTERN product_url) as [groups|];
    [|intros [= <-]; now right].
  destruct Hsearch as (before & shop_id & item_id & after & -> & _).
  discriminate.
Qed.

(** Something true can be iterated only if it is not empty. *)
Lemma truthy_iter_nonempty v ids :
  py_truthy v = true -> py_iter v = inr ids -> ids <> [].
Proof.
  destruct v as [|b|q|s|items|items]; cbn; try discriminate.
  - destruct s; [discriminate|]. intros _ [= <-]. discriminate.
  - destruct items; [discriminate|]. intros _ [= <-]. discriminate.
  - destruct items; [discriminate|]. intros _ [= <-]. discriminate.
Qed.

Lemma images_of_raises product_data e :
  images_of product_data = inl e -> e = AttributeError.
Proof.
  unfold images_of, py_get.
  destruct product_data; try (intros [= <-]; reflexivity).
  destruct (match dict_lookup "data" items with Some v => v | None => _ end);
    try (intros [= <-]; reflexivity).
  destruct (match dict_lookup "product_info" items0 with
            | Some v => v | None => _ end);
    try (intros [= <-]; reflexivity).
Qed.

Lemma py_iter_raises v e : py_iter v = inl e -> e = TypeError.
Proof. destruct v; cbn; (discriminate || now intros [= <-]). Qed.

(** The three ways in which the part of a run that follows the decoding of
    the body can end. *)
Lemma check_images_cases product_data category st :
  let run := check_images E product_data category st in
  (exists e, (e = AttributeError \/ e = TypeError) /\ run = (Raises e, st))
  \/ run = (Returns (Text ERR_NO_IMAGES) None, st)
  \/ exists first_id other_ids first others added,
      fst (judge_images E (first_id :: other_ids) category st)
         = first :: others
      /\ image_url first = cdn_url E first_id
      /\ length (first :: others) = length (first_id :: other_ids)
      /\ trace (snd (judge_images E (first_id :: other_ids) category st))
         = trace st ++ added
      /\ requests_of added = [] /\ csv_writes added = []
      /\ run =
         (Returns
            (Summary (length (first :: others))
               (length (filter (fun r => is_pass r = true) (first :: others)))
               (length (first :: others)
                - length (filter (fun r => is_pass r = true) (first :: others))))
            (Some (cdn_url E first_id)),
          emit (EvCsv (first :: others))
               (snd (judge_images E (first_id :: other_ids) category st))).
Proof.
  cbv zeta. rewrite check_images_eq.
  destruct (images_of product_data) as [e|product_images] eqn:Himages.
  { left. exists e. split; [|reflexivity].
    left. now apply images_of_raises in Himages. }
  destruct (py_truthy product_images) eqn:Htruthy; [|right; now left].
  destruct (py_iter product_images) as [e|ids] eqn:Hiter.
  { left. exists e. split; [|reflexivity].
    right. now apply py_iter_raises in Hiter. }
  right. right.
  pose proof (truthy_iter_nonempty _ _ Htruthy Hiter) as Hne.
  destruct ids as [|first_id other_ids]; [contradiction|].
  pose proof (judge_images_urls E (first_id :: other_ids) category st) as Hurls.
  destruct (judge_images_trace E (first_id :: other_ids) category st)
    as (added & Htrace & _ & _ & Hreq & Hcsv).
  destruct (fst (judge_images E (first_id :: other_ids) category st))
    as [|first others] eqn:Hrows; [discriminate|].
  exists first_id, other_ids, first, others, added.
  split; [exact Hrows|].
  split; [now injection Hurls|]. split.
  { rewrite <- (length_map image_url), Hurls. apply length_map. }
  split; [exact Htrace|]. split; [exact Hreq|]. split; [exact Hcsv|].
  rewrite report_eq. injection Hurls as -> _. reflexivity.
Qed.

End RunStages.

(** ** A run as a whole *)

Section RunAsAWhole.
Context {World : Type} (E : Env World).
Implicit Types st : @State World.
Import PyStr PyStrFacts.

Lemma parse_success_has_segment product_url shop_id item_id :
  parse_product_url product_url = inr (shop_id, item_id) ->
  has_segment product_url.
Proof.
  pose proof (search_url_pattern product_url) as Hsearch.
  unfold parse_product_url.
  destruct (_ || _); [discriminate|].
  destruct (Re.search URL_PATTERN product_url) as [groups|]; [|discriminate].
  destruct Hsearch as (before & shop & item & after & _ & [Hseg _] & _).
  intros _. now exists before, shop, item, after.
Qed.

(** X6.  A URL without a segment [i.<digits>.<digits>] is turned down
    before anything is done: the run returns one of the two messages, no
    sample, and has made no request, walked no directory, called no
    service and written no file. *)
Theorem X6_invalid_url_makes_no_call :
  forall product_url category st,
    ~ has_segment product_url ->
    exists message,
      scrape_shopee_reviews E product_url category st
      = (Returns (Text message) None, st)
      /\ (message = ERR_URL_REQUIRED \/ message = ERR_INVALID_URL).
Proof.
  intros product_url category st Hnone. rewrite scrape_eq.
  destruct (parse_product_url product_url) as [failure|[shop_id item_id]] eqn:Hparse.
  - apply parse_product_url_failure_is_a_message in Hparse as [-> | ->];
      eexists; split; eauto.
  - exfalso. apply Hnone. eapply parse_success_has_segment, Hparse.
Qed.

Lemma lstrip_chars_spaces l :
  Forall (fun c => isspace c = true) l -> lstrip_chars l = [].
Proof. induction 1 as [|c l Hc _ IH]; cbn; [reflexivity | now rewrite Hc]. Qed.

(** X7.  Of the two messages for a URL that is turned down, the one that
    asks for a URL is given exactly when the URL is empty or made of white
    space only. *)
Theorem X7_url_required_exactly_when_blank :
  forall product_url,
    parse_product_url product_url = inl (Returns (Text ERR_URL_REQUIRED) None)
    <-> Forall (fun c => isspace c = true) (chars product_url).
Proof.
  intros product_url. unfold parse_product_url. split.
  - destruct (falsy product_url) eqn:Hempty.
    + apply falsy_spec in Hempty as ->. constructor.
    + destruct (falsy (strip product_url)) eqn:Hblank.
      * intros _. now apply strip_empty, falsy_spec.
      * cbn [orb].
        destruct (Re.search URL_PATTERN product_url) as [[|a [|b [|c l]]]|];
          discriminate.
  - intros Hspaces.
    assert (Hblank : falsy (strip product_url) = true).
    { apply falsy_spec. unfold strip.
      rewrite (lstrip_chars_spaces _ Hspaces). reflexivity. }
    rewrite Hblank, orb_true_r. reflexivity.
Qed.

(** X8.  When the API answers with any status other than 200, whatever the
    body, the run ends with the message that carries the status; nothing
    has happened but the two requests. *)
Theorem X8_any_status_but_200_is_an_error :
  forall product_url category shop_id item_id st page_status page_json
         status_code json,
    let page := listing_page shop_id item_id in
    let api := api_url shop_id item_id in
    let st1 := after_get E page None st in
    let st2 := after_get E api (Some 10%Z) st1 in
    parse_product_url product_url = inr (shop_id, item_id) ->
    fst (env_get E (world st) page None) = Response page_status page_json ->
    fst (env_get E (world st1) api (Some 10%Z)) = Response status_code json ->
    status_code <> 200%Z ->
    scrape_shopee_reviews E product_url category st
    = (Returns
         (Text ("Error: Failed to fetch product data (HTTP "
                  +:+ pretty status_code +:+ ")."))
         None,
       st2)
    /\ trace st2 = trace st ++ [EvGet page None; EvGet api (Some 10%Z)].
Proof.
  intros product_url category shop_id item_id st page_status page_json
         status_code json page api st1 st2 Hparse Hpage Hapi Hstatus.
  rewrite scrape_eq, Hparse. cbv zeta. fold page api st1 st2.
  rewrite Hpage, Hapi.
  apply Z.eqb_neq in Hstatus. rewrite Hstatus.
  split; [reflexivity|].
  subst st2 st1. unfold after_get. cbn [trace]. now rewrite <- app_assoc.
Qed.

(** X9.  When the API request raises, or answers 200 with a body that is
    not JSON, the run ends with an error after the two requests: the
    message for a timeout, or the message that carries the text of the
    exception; the two are never the same. *)
Theorem X9_api_request_failures :
  forall product_url category shop_id item_id st page_status page_json,
    let page := listing_page shop_id item_id in
    let api := api_url shop_id item_id in
    let st1 := after_get E page None st in
    let st2 := after_get E api (Some 10%Z) st1 in
    parse_product_url product_url = inr (shop_id, item_id) ->
    fst (env_get E (world st) page None) = Response page_status page_json ->
    match fst (env_get E (world st1) api (Some 10%Z)) with
    | RaisesTimeout =>
        scrape_shopee_reviews E product_url category st
        = (Returns (Text ERR_TIMEOUT) None, st2)
    | RaisesRequestException detail =>
        scrape_shopee_reviews E product_url category st
        = (Returns (Text (err_request detail)) None, st2)
        /\ err_request detail <> ERR_TIMEOUT
    | Response status_code json =>
        forall detail,
          status_code = 200%Z -> json = inl detail ->
          scrape_shopee_reviews E product_url category st
          = (Returns (Text (err_request detail)) None, st2)
    end.
Proof.
  intros product_url category shop_id item_id st page_status page_json
         page api st1 st2 Hparse Hpage.
  rewrite scrape_eq, Hparse. cbv zeta. fold page api st1 st2. rewrite Hpage.
  destruct (fst (env_get E (world st1) api (Some 10%Z)))
    as [status_code json| |detail].
  - intros detail -> ->. reflexivity.
  - reflexivity.
  - split; [reflexivity | discriminate].
Qed.

(** The two ends of a run that has got past the URL: an error after the
    first or the second request, or whatever the part that follows the
    decoding of the body gives. *)
Lemma scrape_cases product_url category st :
  let run := scrape_shopee_reviews E product_url category st in
  (exists message,
      (message = ERR_URL_REQUIRED \/ message = ERR_INVALID_URL)
      /\ run = (Returns (Text message) None, st))
  \/ exists shop_id item_id,
      parse_product_url product_url = inr (shop_id, item_id)
      /\ let page := listing_page shop_id item_id in
         let api := api_url shop_id item_id in
         let st1 := after_get E page None st in
         let st2 := after_get E api (Some 10%Z) st1 in
         (exists message,
             startswith message "Error: " = true
             /\ (forall s j, fst (env_get E (world st) page None) <> Response s j)
             /\ run = (Returns (Text message) None, st1))
         \/ (exists s j, fst (env_get E (world st) page None) = Response s j)
            /\ ((exists message,
                    startswith message "Error: " = true
                    /\ run = (Returns (Text message) None, st2))
                \/ exists product_data,
                    run = check_images E product_data category st2).
Proof.
  cbv zeta. rewrite scrape_eq.
  destruct (parse_product_url product_url) as [failure|[shop_id item_id]] eqn:Hparse.
  { left. apply parse_product_url_failure_is_a_message in Hparse as [-> | ->];
      eexists; (split; [|reflexivity]); auto. }
  right. exists shop_id, item_id. split; [reflexivity|]. cbv zeta.
  destruct (fst (env_get E (world st) (listing_page shop_id item_id) None))
    as [page_status page_json| |detail].
  - right. split; [eauto|].
    destruct (fst (env_get E _ (api_url shop_id item_id) (Some 10%Z)))
      as [status_code json| |detail].
    + destruct (status_code =? 200)%Z.
      * destruct json as [detail|product_data]; [left | right; eauto].
        eexists. split; [|reflexivity]. reflexivity.
      * left. eexists. split; [|reflexivity]. reflexivity.
    + left. eexists. split; [|reflexivity]. reflexivity.
    + left. eexists. split; [|reflexivity]. reflexivity.
  - left. eexists. split; [|split; [discriminate | reflexivity]]. reflexivity.
  - left. eexists. split; [|split; [discriminate | reflexivity]]. reflexivity.
Qed.

End RunAsAWhole.

Section RunEffects.
Context {World : Type} (E : Env World).
Implicit Types st : @State World.
Import PyStr PyStrFacts.

Lemma after_get_effects url timeout st :
  let st' := after_get E url timeout st in
  requests_of (trace st') = requests_of (trace st) ++ [url]
  /\ csv_writes (trace st') = csv_writes (trace st)
  /\ vision_calls (trace st') = vision_calls (trace st)
  /\ scans_of (trace st') = scans_of (trace st).
Proof.
  unfold after_get. cbn [trace].
  rewrite requests_of_app, csv_writes_app, vision_calls_app, scans_of_app.
  cbn. now rewrite !app_nil_r.
Qed.

(** X10.  A report is written whole or not at all.  A run that returns a
    summary has written the CSV file exactly once, as the last thing it
    did, with at least one row.  A run that returns an error message has
    written no file, walked no directory and called no service.  (Nothing
    is said of a run that an exception leaves.) *)
Theorem X10_report_is_all_or_nothing :
  forall product_url category st,
    let run := scrape_shopee_reviews E product_url category st in
    match fst run with
    | Returns (Summary _ _ _) _ =>
        exists rows,
          csv_writes (trace (snd run)) = csv_writes (trace st) ++ [rows]
          /\ last (trace (snd run)) = Some (EvCsv rows)
          /\ rows <> []
    | Returns (Text _) _ =>
        csv_writes (trace (snd run)) = csv_writes (trace st)
        /\ vision_calls (trace (snd run)) = vision_calls (trace st)
        /\ scans_of (trace (snd run)) = scans_of (trace st)
    | Raises _ => True
    end.
Proof.
  intros product_url category st. cbv zeta.
  destruct (scrape_cases E product_url category st)
    as [(message & _ & ->)|(shop_id & item_id & _ & Hrun)]; [cbn; auto|].
  cbv zeta in Hrun.
  set (st1 := after_get E (listing_page shop_id item_id) None st) in *.
  set (st2 := after_get E (api_url shop_id item_id) (Some 10%Z) st1) in *.
  destruct (after_get_effects (listing_page shop_id item_id) None st)
    as (_ & Hcsv1 & Hcalls1 & Hscans1). fold st1 in Hcsv1, Hcalls1, Hscans1.
  destruct (after_get_effects (api_url shop_id item_id) (Some 10%Z) st1)
    as (_ & Hcsv2 & Hcalls2 & Hscans2). fold st2 in Hcsv2, Hcalls2, Hscans2.
  destruct Hrun as [(message & _ & _ & ->)
                   |[_ [(message & _ & ->)|(product_data & ->)]]].
  - cbn [fst snd]. auto.
  - cbn [fst snd]. rewrite Hcsv2, Hcalls2, Hscans2. auto.
  - destruct (check_images_cases E product_data category st2)
      as [(e & _ & ->)|[-> |Hsummary]].
    + exact I.
    + cbn [fst snd]. rewrite Hcsv2, Hcalls2, Hscans2. auto.
    + destruct Hsummary as (first_id & other_ids & first & others & added
                            & _ & _ & _ & Htrace & _ & Hcsv & ->).
      cbn [fst snd emit trace]. exists (first :: others).
      split; [|split; [apply last_snoc | discriminate]].
      rewrite csv_writes_app, Htrace, csv_writes_app, Hcsv, Hcsv2, Hcsv1.
      now rewrite app_nil_r.
Qed.

(** X11.  The requests of a run: none for a URL that is turned down;
    otherwise the visit of the listing page of the identifiers parsed from
    the URL and then, unless the visit raised, the API request for the same
    identifiers.  No request is made a second time. *)
Theorem X11_requests_of_a_run :
  forall product_url category st,
    let st' := snd (scrape_shopee_reviews E product_url category st) in
    match parse_product_url product_url with
    | inl _ => requests_of (trace st') = requests_of (trace st)
    | inr (shop_id, item_id) =>
        match fst (env_get E (world st) (listing_page shop_id item_id) None) with
        | Response _ _ =>
            requests_of (trace st')
            = requests_of (trace st)
                ++ [listing_page shop_id item_id; api_url shop_id item_id]
        | _ =>
            requests_of (trace st')
            = requests_of (trace st) ++ [listing_page shop_id item_id]
        end
    end.
Proof.
  intros product_url category st. cbv zeta. rewrite scrape_eq.
  destruct (parse_product_url product_url) as [failure|[shop_id item_id]];
    [reflexivity|].
  cbv zeta.
  set (st1 := after_get E (listing_page shop_id item_id) None st).
  set (st2 := after_get E (api_url shop_id item_id) (Some 10%Z) st1).
  destruct (after_get_effects (listing_page shop_id item_id) None st)
    as (Hreq1 & _). fold st1 in Hreq1.
  destruct (after_get_effects (api_url shop_id item_id) (Some 10%Z) st1)
    as (Hreq2 & _). fold st2 in Hreq2.
  assert (Htwo : requests_of (trace st2)
                 = requests_of (trace st)
                     ++ [listing_page shop_id item_id; api_url shop_id item_id])
    by now rewrite Hreq2, Hreq1, <- app_assoc.
  destruct (fst (env_get E (world st) (listing_page shop_id item_id) None))
    as [page_status page_json| |detail]; [|exact Hreq1..].
  destruct (fst (env_get E (world st1) (api_url shop_id item_id) (Some 10%Z)))
    as [status_code json| |detail]; [|exact Htwo..].
  destruct (status_code =? 200)%Z; [|exact Htwo].
  destruct json as [detail|product_data]; [exact Htwo|].
  destruct (check_images_cases E product_data category st2)
    as [(e & _ & ->)|[-> |Hsummary]]; [exact Htwo..|].
  destruct Hsummary as (first_id & other_ids & first & others & added
                        & _ & _ & _ & Htrace & Hreq & _ & ->).
  cbn [snd emit trace].
  rewrite requests_of_app, Htrace, requests_of_app, Hreq, Htwo. cbn.
  now rewrite !app_nil_r.
Qed.

(** How a run can end: with a message that begins with ["Error: "] and no
    sample; with a summary of at least one image whose two counts add up,
    and the CDN URL of an image as the sample; or with one of two
    exceptions. *)
Lemma run_outcome product_url category st :
  match fst (scrape_shopee_reviews E product_url category st) with
  | Returns (Text message) sample =>
      startswith message "Error: " = true /\ sample = None
  | Returns (Summary total_images pass_count counterfeit) sample =>
      0 < total_images
      /\ pass_count + counterfeit = total_images
      /\ exists img_id, sample = Some (cdn_url E img_id)
  | Raises e => e = AttributeError \/ e = TypeError
  end.
Proof.
  destruct (scrape_cases E product_url category st)
    as [(message & [-> | ->] & ->)|(shop_id & item_id & _ & Hrun)];
    [cbn; auto..|].
  cbv zeta in Hrun.
  destruct Hrun as [(message & Hmsg & _ & ->)
                   |[_ [(message & Hmsg & ->)|(product_data & ->)]]];
    [cbn [fst]; auto..|].
  destruct (check_images_cases E product_data category
              (after_get E (api_url shop_id item_id) (Some 10%Z)
                 (after_get E (listing_page shop_id item_id) None st)))
    as [(e & He & ->)|[-> |Hsummary]]; [cbn [fst]; auto..|].
  destruct Hsummary as (first_id & other_ids & first & others & added
                        & _ & _ & _ & _ & _ & _ & ->).
  cbn [fst]. split; [cbn; lia|]. split; [|eauto].
  pose proof (length_filter (fun r => is_pass r = true) (first :: others)).
  lia.
Qed.


(** X13.  When the API answers 200 with a body in which a key of the path
    [data.product_info.images] is missing from its dict, or in which the
    value found there is empty or otherwise false, the run ends with the
    message for a listing without images right after the two requests:
    nothing is judged and nothing is written. *)
Theorem X13_no_images_before_judging :
  forall product_url category shop_id item_id st page_status page_json
         product_data,
    let page := listing_page shop_id item_id in
    let api := api_url shop_id item_id in
    let st1 := after_get E page None st in
    let st2 := after_get E api (Some 10%Z) st1 in
    parse_product_url product_url = inr (shop_id, item_id) ->
    fst (env_get E (world st) page None) = Response page_status page_json ->
    fst (env_get E (world st1) api (Some 10%Z))
      = Response 200 (inr product_data) ->
    (path_missing product_data
     \/ exists product_images,
         images_of product_data = inr product_images
         /\ py_truthy product_images = false) ->
    scrape_shopee_reviews E product_url category st
    = (Returns (Text ERR_NO_IMAGES) None, st2)
    /\ trace st2 = trace st ++ [EvGet page None; EvGet api (Some 10%Z)].
Proof.
  intros product_url category shop_id item_id st page_status page_json
         product_data page api st1 st2 Hparse Hpage Hapi Hnone.
  rewrite scrape_eq, Hparse. cbv zeta. fold page api st1 st2.
  rewrite Hpage, Hapi. cbn [Z.eqb Pos.eqb].
  split.
  - destruct Hnone as [Hmissing|(product_images & Himages & Hfalse)].
    + apply (no_images_before_judging E product_data (JList [])); [|reflexivity].
      now apply images_of_missing_key.
    + now apply (no_images_before_judging E product_data product_images).
  - subst st2 st1. unfold after_get. cbn [trace]. now rewrite <- app_assoc.
Qed.

(** The sample of a summary is the URL in the first row written. *)
Lemma summary_sample product_url category st :
  match fst (scrape_shopee_reviews E product_url category st) with
  | Returns (Summary _ _ _) sample =>
      exists first others first_id,
        last (trace (snd (scrape_shopee_reviews E product_url category st)))
        = Some (EvCsv (first :: others))
        /\ image_url first = cdn_url E first_id
        /\ sample = Some (image_url first)
  | _ => True
  end.
Proof.
  destruct (scrape_cases E product_url category st)
    as [(message & _ & ->)|(shop_id & item_id & _ & Hrun)]; [exact I|].
  cbv zeta in Hrun.
  destruct Hrun as [(message & _ & _ & ->)
                   |[_ [(message & _ & ->)|(product_data & ->)]]];
    [exact I..|].
  set (st2 := after_get E (api_url shop_id item_id) (Some 10%Z)
                (after_get E (listing_page shop_id item_id) None st)).
  destruct (check_images_cases E product_data category st2)
    as [(e & _ & ->)|[-> |Hsummary]]; [exact I..|].
  destruct Hsummary as (first_id & other_ids & first & others & added
                        & _ & Hurl & _ & _ & _ & _ & ->).
  cbn [fst snd emit trace]. exists first, others, first_id.
  split; [apply last_snoc|]. split; [exact Hurl | now rewrite Hurl].
Qed.

Lemma agreeing_rows_counts (rows : list ResultRow) :
  Forall (fun r => row_agrees (classification r) (confidence r)) rows ->
  length (filter (fun r => is_pass r = true) rows)
  = length (filter (fun r => Qeq_bool (confidence r) 1 = true) rows)
  /\ length rows - length (filter (fun r => is_pass r = true) rows)
     = length (filter (fun r => Qeq_bool (confidence r) 0 = true) rows)
  /\ Forall (fun r => confidence r = 1%Q \/ confidence r = 0%Q) rows.
Proof.
  induction 1 as [|r rows Hr _ IH]; [repeat split; constructor|].
  destruct IH as (Hpass & Hfail & Hall).
  pose proof (length_filter (fun r => is_pass r = true) rows) as Hbound.
  rewrite !filter_cons. cbn [length].
  destruct Hr as [[Hc Hq]|[Hc Hq]]; rewrite Hq.
  - rewrite decide_True by now apply is_pass_verdict, verdict_of_Pass.
    rewrite decide_True by reflexivity.
    rewrite decide_False by discriminate.
    cbn [length]. split; [congruence|]. split; [lia|]. constructor; auto.
  - rewrite decide_False
      by (intros Hp; apply is_pass_verdict, verdict_of_Pass in Hp; contradiction).
    rewrite decide_False by discriminate.
    rewrite decide_True by reflexivity.
    cbn [length]. split; [exact Hpass|]. split; [lia|]. constructor; auto.
Qed.

(** X15.  The summary and the file agree.  When a run returns a summary,
    the number it gives as authentic is the number of rows written with
    confidence 1, the number it gives as counterfeit is the number of rows
    written with confidence 0, and every row written has one of the two. *)
Theorem X15_summary_agrees_with_the_rows :
  forall product_url category st,
    let run := scrape_shopee_reviews E product_url category st in
    match fst run with
    | Returns (Summary total_images pass_count counterfeit) _ =>
        exists rows,
          last (trace (snd run)) = Some (EvCsv rows)
          /\ total_images = length rows
          /\ pass_count
             = length (filter (fun r => Qeq_bool (confidence r) 1 = true) rows)
          /\ counterfeit
             = length (filter (fun r => Qeq_bool (confidence r) 0 = true) rows)
          /\ Forall (fun r => confidence r = 1%Q \/ confidence r = 0%Q) rows
    | _ => True
    end.
Proof.
  intros product_url category st. cbv zeta.
  destruct (scrape_cases E product_url category st)
    as [(message & _ & ->)|(shop_id & item_id & _ & Hrun)]; [exact I|].
  cbv zeta in Hrun.
  destruct Hrun as [(message & _ & _ & ->)
                   |[_ [(message & _ & ->)|(product_data & ->)]]];
    [exact I..|].
  set (st2 := after_get E (api_url shop_id item_id) (Some 10%Z)
                (after_get E (listing_page shop_id item_id) None st)).
  destruct (check_images_cases E product_data category st2)
    as [(e & _ & ->)|[-> |Hsummary]]; [exact I..|].
  destruct Hsummary as (first_id & other_ids & first & others & added
                        & Hrows & _ & _ & _ & _ & _ & ->).
  pose proof (judge_images_agree E (first_id :: other_ids) category st2)
    as Hagree.
  rewrite Hrows in Hagree.
  destruct (agreeing_rows_counts _ Hagree) as (Hpass & Hfail & Hall).
  cbn [fst snd emit trace].
  exists (first :: others). split; [apply last_snoc|]. split; [reflexivity|].
  split; [exact Hpass|]. split; [exact Hfail | exact Hall].
Qed.

End RunEffects.

(** ** The front end *)

Section FrontEndFacts.
Context {World Image : Type} (E : Env World).
Variable open_image : World -> string -> option Image * World.

(** X14.  What the front end does with a run.  An error message, which
    comes without a sample, is shown as it is, without a picture, and
    nothing is fetched; an exception of the run leaves the front end too.
    After a summary the front end fetches exactly one picture: that of the
    sample of the run, which is the URL in the first row of the report
    just written.  It shows the summary with the picture, and when
    fetching or decoding the picture raises, the call fails although the
    run itself had succeeded. *)
Theorem X14_front_end_shows_the_run :
  forall product_url category (s : @Session World),
    let run := scrape_shopee_reviews E product_url category (pipeline s) in
    let shown := gradio_scrape E open_image product_url category s in
    match fst run with
    | Returns (Text message) sample =>
        sample = None
        /\ shown = (Shows (Text message) None,
                    {| pipeline := snd run; fetched := fetched s |})
    | Returns (Summary total_images pass_count counterfeit) sample =>
        exists first others,
          last (trace (snd run)) = Some (EvCsv (first :: others))
          /\ sample = Some (image_url first)
          /\ fetched (snd shown) = fetched s ++ [image_url first]
          /\ trace (pipeline (snd shown)) = trace (snd run)
          /\ world (pipeline (snd shown))
             = snd (open_image (world (snd run)) (image_url first))
          /\ fst shown =
             match fst (open_image (world (snd run)) (image_url first)) with
             | Some picture =>
                 Shows (Summary total_images pass_count counterfeit)
                       (Some picture)
             | None => Fails
             end
    | Raises _ =>
        shown = (Fails, {| pipeline := snd run; fetched := fetched s |})
    end.
Proof.
  intros product_url category s. cbv zeta.
  pose proof (run_outcome E product_url category (pipeline s)) as Hend.
  pose proof (summary_sample E product_url category (pipeline s)) as Hsample.
  unfold gradio_scrape.
  destruct (scrape_shopee_reviews E product_url category (pipeline s))
    as [outcome st].
  cbn [fst snd] in *.
  destruct outcome as [[message|total_images pass_count counterfeit] sample|e].
  - destruct Hend as [_ ->]. split; reflexivity.
  - destruct Hsample as (first & others & first_id & Hlast & Hurl & ->).
    exists first, others.
    split; [exact Hlast|]. split; [reflexivity|].
    rewrite Hurl.
    change (PyStr.falsy (cdn_url E first_id)) with false. cbv iota.
    destruct (open_image (world st) (cdn_url E first_id)) as [[picture|] w];
      cbn; auto.
  - reflexivity.
Qed.

End FrontEndFacts.

(** *** The further properties on the example environments *)

Section MoreWitnesses.
Import Examples MoreExamples.

Lemma X6_witness :
  ~ has_segment "https://shopee.co.id/i.12"
  /\ exists message,
      scrape_shopee_reviews (service_says "Pass") "https://shopee.co.id/i.12"
        "bags" start
      = (Returns (Text message) None, start)
      /\ (message = ERR_URL_REQUIRED \/ message = ERR_INVALID_URL).
Proof.
  assert (Hnone : ~ has_segment "https://shopee.co.id/i.12")
    by exact (search_url_pattern "https://shopee.co.id/i.12").
  split; [exact Hnone|].
  exact (X6_invalid_url_makes_no_call (service_says "Pass")
           "https://shopee.co.id/i.12" "bags" start Hnone).
Defined.

Lemma X8_witness :
  let E := api_answers (Response 201 (inr listing_AB)) in
  let page := listing_page "111" "222" in
  let api := api_url "111" "222" in
  let st1 := after_get E page None start in
  let st2 := after_get E api (Some 10%Z) st1 in
  parse_product_url LISTING_URL = inr ("111", "222")
  /\ fst (env_get E (world start) page None) = Response 200 (inl "not JSON")
  /\ fst (env_get E (world st1) api (Some 10%Z)) = Response 201 (inr listing_AB)
  /\ 201%Z <> 200%Z
  /\ scrape_shopee_reviews E LISTING_URL "bags" start
     = (Returns
          (Text ("Error: Failed to fetch product data (HTTP "
                   +:+ pretty 201%Z +:+ ")."))
          None,
        st2)
  /\ trace st2 = trace start ++ [EvGet page None; EvGet api (Some 10%Z)].
Proof.
  intros E page api st1 st2.
  assert (Hparse : parse_product_url LISTING_URL = inr ("111", "222"))
    by (vm_compute; reflexivity).
  assert (Hpage : fst (env_get E (world start) page None)
                  = Response 200 (inl "not JSON")) by reflexivity.
  assert (Hapi : fst (env_get E (world st1) api (Some 10%Z))
                 = Response 201 (inr listing_AB)) by reflexivity.
  assert (Hstatus : 201%Z <> 200%Z) by discriminate.
  split; [exact Hparse|]. split; [exact Hpage|]. split; [exact Hapi|].
  split; [exact Hstatus|].
  exact (X8_any_status_but_200_is_an_error E LISTING_URL "bags" "111" "222"
           start _ _ _ _ Hparse Hpage Hapi Hstatus).
Defined.

Lemma X9_witness :
  let E := api_answers RaisesTimeout in
  let page := listing_page "111" "222" in
  let api := api_url "111" "222" in
  let st1 := after_get E page None start in
  let st2 := after_get E api (Some 10%Z) st1 in
  parse_product_url LISTING_URL = inr ("111", "222")
  /\ fst (env_get E (world start) page None) = Response 200 (inl "not JSON")
  /\ match fst (env_get E (world st1) api (Some 10%Z)) with
     | RaisesTimeout =>
         scrape_shopee_reviews E LISTING_URL "bags" start
         = (Returns (Text ERR_TIMEOUT) None, st2)
     | RaisesRequestException detail =>
         scrape_shopee_reviews E LISTING_URL "bags" start
         = (Returns (Text (err_request detail)) None, st2)
         /\ err_request detail <> ERR_TIMEOUT
     | Response status_code json =>
         forall detail,
           status_code = 200%Z -> json = inl detail ->
           scrape_shopee_reviews E LISTING_URL "bags" start
           = (Returns (Text (err_request detail)) None, st2)
     end.
Proof.
  intros E page api st1 st2.
  assert (Hparse : parse_product_url LISTING_URL = inr ("111", "222"))
    by (vm_compute; reflexivity).
  assert (Hpage : fst (env_get E (world start) page None)
                  = Response 200 (inl "not JSON")) by reflexivity.
  split; [exact Hparse|]. split; [exact Hpage|].
  exact (X9_api_request_failures E LISTING_URL "bags" "111" "222" start
           _ _ Hparse Hpage).
Defined.


Lemma X13_witness :
  let E := api_answers (Response 200 (inr listing_without_images)) in
  let page := listing_page "111" "222" in
  let api := api_url "111" "222" in
  let st1 := after_get E page None start in
  let st2 := after_get E api (Some 10%Z) st1 in
  parse_product_url LISTING_URL = inr ("111", "222")
  /\ fst (env_get E (world start) page None) = Response 200 (inl "not JSON")
  /\ fst (env_get E (world st1) api (Some 10%Z))
     = Response 200 (inr listing_without_images)
  /\ (path_missing listing_without_images
      \/ exists product_images,
          images_of listing_without_images = inr product_images
          /\ py_truthy product_images = false)
  /\ scrape_shopee_reviews E LISTING_URL "bags" start
     = (Returns (Text ERR_NO_IMAGES) None, st2)
  /\ trace st2 = trace start ++ [EvGet page None; EvGet api (Some 10%Z)].
Proof.
  intros E page api st1 st2.
  assert (Hparse : parse_product_url LISTING_URL = inr ("111", "222"))
    by (vm_compute; reflexivity).
  assert (Hpage : fst (env_get E (world start) page None)
                  = Response 200 (inl "not JSON")) by reflexivity.
  assert (Hapi : fst (env_get E (world st1) api (Some 10%Z))
                 = Response 200 (inr listing_without_images)) by reflexivity.
  assert (Hnone : path_missing listing_without_images
                  \/ exists product_images,
                      images_of listing_without_images = inr product_images
                      /\ py_truthy product_images = false).
  { left. right. right.
    exists [("data", JDict [("product_info", JDict [("name", JString "tas")])])],
           [("product_info", JDict [("name", JString "tas")])],
           [("name", JString "tas")].
    repeat split. }
  split; [exact Hparse|]. split; [exact Hpage|]. split; [exact Hapi|].
  split; [exact Hnone|].
  exact (X13_no_images_before_judging E LISTING_URL "bags" "111" "222" start
           _ _ _ Hparse Hpage Hapi Hnone).
Defined.

End MoreWitnesses.
